(** * Turn-taking and playback scheduling of the voice tutor hook

    A shallow embedding of [src/hooks/useLiveAPI.ts] and [src/App.tsx].
    The first file holds three successive revisions of the [useLiveAPI]
    hook:

    - [Control] (lines 1-373): microphone muting while the tutor speaks,
      plus hidden control messages whose spoken reply is discarded
      ([ignoringNextTurnRef]);
    - [Mute] (lines 373-684): microphone muting only;
    - [Speed] (lines 684-967): client-side playback speed
      ([audioSpeedRef]), no muting.

    [App.tsx] holds the application component, whose transcript is
    [App], and a further revision of the hook, [Turns] (lines 227-528),
    with a turn state, a playback queue and an interrupt button.

    JavaScript numbers that hold seconds (the output clock
    [ctx.currentTime], [audioBuffer.duration], [nextStartTimeRef]) are
    embedded as rationals: the arithmetic is the exact one, rounding of
    doubles is left out.  A React ref [xRef.current] is a field [xRef] of
    the state record, a [useState] cell is a field of the same name, and
    every callback is a function from states to states.  Calls into the
    browser and the session ([source.start], [source.stop],
    [onTranscriptionUpdate], [session.sendRealtimeInput]) are recorded
    in log fields of the state. *)

From Stdlib Require Import QArith Qminmax Lqa.
From stdpp Require Import base gmap sets list strings.

Local Open Scope Q_scope.

(** ** Values shared by the revisions *)

(** [Math.max] and [Math.min] on two numbers. *)
Definition Math_max (a b : Q) : Q := if Qle_bool a b then b else a.
Definition Math_min (a b : Q) : Q := if Qle_bool a b then a else b.

(** [Math.sqrt], rounded down to six decimals (nothing below depends on
    the rounding). *)
Definition Math_sqrt (x : Q) : Q :=
  Z.sqrt (Qnum x * 10 ^ 12 / Z.pos (Qden x)) # 10 ^ 6.

(** A JavaScript string used as a condition: the empty string is falsy. *)
Definition truthy (s : string) : bool :=
  match s with EmptyString => false | String _ _ => true end.

(** The loudness that [onaudioprocess] derives from a frame:
    [sum += x * x] over the samples, [rms = Math.sqrt(sum / length)],
    then [Math.min(rms * 5, 1)]. *)
Definition sumSquares (inputData : list Q) : Q :=
  fold_left (fun sum x => sum + x * x) inputData 0.

Definition rms (inputData : list Q) : Q :=
  Math_sqrt (sumSquares inputData / inject_Z (Z.of_nat (length inputData))).

Definition loudness (inputData : list Q) : Q := Math_min (rms inputData * 5) 1.

(** [types.ts]. *)
Inductive ConnectionState : Type := DISCONNECTED | CONNECTING | CONNECTED | ERROR.
Inductive TurnState : Type := USER_SPEAKING | AI_PROCESSING | AI_SPEAKING.
Inductive SpeedMode : Type := v_slow | slow | normal | fast | v_fast.

(** The audio part of a server message after [decodeAudioData]: the
    duration of the decoded buffer, or a payload that fails to decode
    (the awaited promise rejects and the handler stops there). *)
Inductive Audio : Type :=
  | Decoded (duration : Q)
  | Undecodable.

(** The fields of [LiveServerMessage.serverContent] the hook reads.  A
    transcription text that is absent or empty is the empty string;
    [inlineData] is [None] when [base64Audio] is absent or empty. *)
Record LiveServerMessage : Type := {
  turnComplete : bool;
  interrupted : bool;
  outputTranscription : string;
  inputTranscription : string;
  inlineData : option Audio
}.

(** A server message that carries one decodable audio chunk and nothing
    else. *)
Definition chunk (duration : Q) : LiveServerMessage :=
  {| turnComplete := false; interrupted := false;
     outputTranscription := ""; inputTranscription := "";
     inlineData := Some (Decoded duration) |}.

(** The bare notices of the session: the tutor was interrupted, the
    turn is complete. *)
Definition interruption : LiveServerMessage :=
  {| turnComplete := false; interrupted := true;
     outputTranscription := ""; inputTranscription := "";
     inlineData := None |}.

Definition completion : LiveServerMessage :=
  {| turnComplete := true; interrupted := false;
     outputTranscription := ""; inputTranscription := "";
     inlineData := None |}.

(** A transcription of what the user said, as the session reports it. *)
Definition utterance (text : string) : LiveServerMessage :=
  {| turnComplete := false; interrupted := false;
     outputTranscription := ""; inputTranscription := text;
     inlineData := None |}.

(** The duration a message adds to the playback queue. *)
Definition audioDuration (message : LiveServerMessage) : Q :=
  match inlineData message with
  | Some (Decoded duration) => duration
  | _ => 0
  end.

(** An [AudioBufferSourceNode] as [source.start] received it: the
    instant on the output clock, the buffer's duration and
    [playbackRate.value].  [src_id] stands for the object's identity. *)
Record Source : Type := {
  src_id : nat;
  src_start : Q;
  src_duration : Q;
  src_rate : Q
}.

(** The stretch of output time a source occupies: it ends
    [duration / playbackRate] after its start. *)
Definition occupancy (s : Source) : Q := src_duration s / src_rate s.
Definition src_end (s : Source) : Q := src_start s + occupancy s.

(** An argument of [session.sendRealtimeInput]. *)
Inductive RealtimeInput : Type :=
  | Text (text : string)
  | Media (pcm : list Q).

(** The sources that can still be heard: started, never stopped, and
    their [ended] event has not fired. *)
Definition audible (started : list Source) (stopped ended : gset nat) : list Source :=
  filter (fun s => (src_id s ∉ stopped) /\ (src_id s ∉ ended)) started.

(** [activeSourcesRef.current.size === 0]. *)
Definition size_is_0 (s : gset nat) : bool := Nat.eqb (size s) 0.

Arguments Math_max : simpl never.
Arguments Math_min : simpl never.
Arguments loudness : simpl never.
Arguments size_is_0 : simpl never.

(** ** The transcript kept by the application ([App.tsx]) *)

Module App.

Record Turn : Type := { user : string; model : string }.

(** [handleTranscriptionUpdate]: the updater passed to [setTranscript]. *)
Definition handleTranscriptionUpdate
    (prev : list Turn) (userText modelText : string) : list Turn :=
  if truthy userText then
    match last prev with
    | Some l =>
        if negb (truthy (model l)) && truthy (user l)
        then removelast prev ++ [{| user := user l +:+ userText; model := model l |}]
        else prev ++ [{| user := userText; model := "" |}]
    | None => prev ++ [{| user := userText; model := "" |}]
    end
  else if truthy modelText then
    match last prev with
    | Some l => removelast prev ++ [{| user := user l; model := model l +:+ modelText |}]
    | None => prev ++ [{| user := ""; model := modelText |}]
    end
  else prev.

(** The transcript after a series of [onTranscriptionUpdate] calls. *)
Definition transcript (calls : list (string * string)) : list Turn :=
  fold_left (fun prev c => handleTranscriptionUpdate prev (fst c) (snd c)) calls [].

(** Everything the user said, and everything the tutor said, as the
    transcript shows it from top to bottom. *)
Definition userWords (turns : list Turn) : string :=
  fold_right (fun t rest => user t +:+ rest) "" turns.

Definition modelWords (turns : list Turn) : string :=
  fold_right (fun t rest => model t +:+ rest) "" turns.

(** A call as the hooks make it: one of the two texts is empty. *)
Definition oneSided (call : string * string) : Prop :=
  fst call = "" \/ snd call = "".

End App.

(** ** Revision with control messages (lines 1-373) *)

Module Control.

(** [isMuted_captured] is the binding of [isMuted] that [onmessage]
    closes over: the callback is created inside [connect], which is
    memoised over [cleanup], [onTranscriptionUpdate],
    [stopAudioPlayback] and [setMediaMute] only.  [streamRef] is [None]
    for a null ref and [Some e] for a stream whose microphone track has
    [enabled = e].  [started], [stopped] and [ended] are the output
    graph: the sources handed to [source.start], those on which
    [source.stop] was called, and those whose [ended] event fired.
    [connect] is created at the first render, so the binding is [false]
    in every session. *)
Record State := {
  connectionState : ConnectionState;
  isMuted : bool;
  isPlaying : bool;
  volume : Q;
  isMuted_captured : bool;
  outputAudioContextRef : bool;
  outputNodeRef : bool;
  streamRef : option bool;
  nextStartTimeRef : Q;
  activeSourcesRef : gset nat;
  processingModelTurnRef : bool;
  ignoringNextTurnRef : bool;
  sessionPromiseRef : bool;
  started : list Source;
  stopped : gset nat;
  ended : gset nat;
  emitted : list (string * string);
  sent : list RealtimeInput
}.

Definition set_connectionState (v : ConnectionState) (st : State) : State :=
Build_State v (isMuted st) (isPlaying st) (volume st) (isMuted_captured st)
    (outputAudioContextRef st) (outputNodeRef st) (streamRef st)
    (nextStartTimeRef st) (activeSourcesRef st) (processingModelTurnRef st)
    (ignoringNextTurnRef st) (sessionPromiseRef st) (started st) (stopped st)
    (ended st) (emitted st) (sent st).
Definition set_isMuted (v : bool) (st : State) : State :=
Build_State (connectionState st) v (isPlaying st) (volume st)
    (isMuted_captured st) (outputAudioContextRef st) (outputNodeRef st)
    (streamRef st) (nextStartTimeRef st) (activeSourcesRef st)
    (processingModelTurnRef st) (ignoringNextTurnRef st) (sessionPromiseRef
    st) (started st) (stopped st) (ended st) (emitted st) (sent st).
Definition set_isPlaying (v : bool) (st : State) : State :=
Build_State (connectionState st) (isMuted st) v (volume st) (isMuted_captured
    st) (outputAudioContextRef st) (outputNodeRef st) (streamRef st)
    (nextStartTimeRef st) (activeSourcesRef st) (processingModelTurnRef st)
    (ignoringNextTurnRef st) (sessionPromiseRef st) (started st) (stopped st)
    (ended st) (emitted st) (sent st).
Definition set_volume (v : Q) (st : State) : State :=
Build_State (connectionState st) (isMuted st) (isPlaying st) v
    (isMuted_captured st) (outputAudioContextRef st) (outputNodeRef st)
    (streamRef st) (nextStartTimeRef st) (activeSourcesRef st)
    (processingModelTurnRef st) (ignoringNextTurnRef st) (sessionPromiseRef
    st) (started st) (stopped st) (ended st) (emitted st) (sent st).
Definition set_isMuted_captured (v : bool) (st : State) : State :=
Build_State (connectionState st) (isMuted st) (isPlaying st) (volume st) v
    (outputAudioContextRef st) (outputNodeRef st) (streamRef st)
    (nextStartTimeRef st) (activeSourcesRef st) (processingModelTurnRef st)
    (ignoringNextTurnRef st) (sessionPromiseRef st) (started st) (stopped st)
    (ended st) (emitted st) (sent st).
Definition set_outputAudioContextRef (v : bool) (st : State) : State :=
Build_State (connectionState st) (isMuted st) (isPlaying st) (volume st)
    (isMuted_captured st) v (outputNodeRef st) (streamRef st)
    (nextStartTimeRef st) (activeSourcesRef st) (processingModelTurnRef st)
    (ignoringNextTurnRef st) (sessionPromiseRef st) (started st) (stopped st)
    (ended st) (emitted st) (sent st).
Definition set_outputNodeRef (v : bool) (st : State) : State :=
Build_State (connectionState st) (isMuted st) (isPlaying st) (volume st)
    (isMuted_captured st) (outputAudioContextRef st) v (streamRef st)
    (nextStartTimeRef st) (activeSourcesRef st) (processingModelTurnRef st)
    (ignoringNextTurnRef st) (sessionPromiseRef st) (started st) (stopped st)
    (ended st) (emitted st) (sent st).
Definition set_streamRef (v : option bool) (st : State) : State :=
Build_State (connectionState st) (isMuted st) (isPlaying st) (volume st)
    (isMuted_captured st) (outputAudioContextRef st) (outputNodeRef st) v
    (nextStartTimeRef st) (activeSourcesRef st) (processingModelTurnRef st)
    (ignoringNextTurnRef st) (sessionPromiseRef st) (started st) (stopped st)
    (ended st) (emitted st) (sent st).
Definition set_nextStartTimeRef (v : Q) (st : State) : State :=
Build_State (connectionState st) (isMuted st) (isPlaying st) (volume st)
    (isMuted_captured st) (outputAudioContextRef st) (outputNodeRef st)
    (streamRef st) v (activeSourcesRef st) (processingModelTurnRef st)
    (ignoringNextTurnRef st) (sessionPromiseRef st) (started st) (stopped st)
    (ended st) (emitted st) (sent st).
Definition set_activeSourcesRef (v : gset nat) (st : State) : State :=
Build_State (connectionState st) (isMuted st) (isPlaying st) (volume st)
    (isMuted_captured st) (outputAudioContextRef st) (outputNodeRef st)
    (streamRef st) (nextStartTimeRef st) v (processingModelTurnRef st)
    (ignoringNextTurnRef st) (sessionPromiseRef st) (started st) (stopped st)
    (ended st) (emitted st) (sent st).
Definition set_processingModelTurnRef (v : bool) (st : State) : State :=
Build_State (connectionState st) (isMuted st) (isPlaying st) (volume st)
    (isMuted_captured st) (outputAudioContextRef st) (outputNodeRef st)
    (streamRef st) (nextStartTimeRef st) (activeSourcesRef st) v
    (ignoringNextTurnRef st) (sessionPromiseRef st) (started st) (stopped st)
    (ended st) (emitted st) (sent st).
Definition set_ignoringNextTurnRef (v : bool) (st : State) : State :=
Build_State (connectionState st) (isMuted st) (isPlaying st) (volume st)
    (isMuted_captured st) (outputAudioContextRef st) (outputNodeRef st)
    (streamRef st) (nextStartTimeRef st) (activeSourcesRef st)
    (processingModelTurnRef st) v (sessionPromiseRef st) (started st) (stopped
    st) (ended st) (emitted st) (sent st).
Definition set_sessionPromiseRef (v : bool) (st : State) : State :=
Build_State (connectionState st) (isMuted st) (isPlaying st) (volume st)
    (isMuted_captured st) (outputAudioContextRef st) (outputNodeRef st)
    (streamRef st) (nextStartTimeRef st) (activeSourcesRef st)
    (processingModelTurnRef st) (ignoringNextTurnRef st) v (started st)
    (stopped st) (ended st) (emitted st) (sent st).
Definition set_started (v : list Source) (st : State) : State :=
Build_State (connectionState st) (isMuted st) (isPlaying st) (volume st)
    (isMuted_captured st) (outputAudioContextRef st) (outputNodeRef st)
    (streamRef st) (nextStartTimeRef st) (activeSourcesRef st)
    (processingModelTurnRef st) (ignoringNextTurnRef st) (sessionPromiseRef
    st) v (stopped st) (ended st) (emitted st) (sent st).
Definition set_stopped (v : gset nat) (st : State) : State :=
Build_State (connectionState st) (isMuted st) (isPlaying st) (volume st)
    (isMuted_captured st) (outputAudioContextRef st) (outputNodeRef st)
    (streamRef st) (nextStartTimeRef st) (activeSourcesRef st)
    (processingModelTurnRef st) (ignoringNextTurnRef st) (sessionPromiseRef
    st) (started st) v (ended st) (emitted st) (sent st).
Definition set_ended (v : gset nat) (st : State) : State :=
Build_State (connectionState st) (isMuted st) (isPlaying st) (volume st)
    (isMuted_captured st) (outputAudioContextRef st) (outputNodeRef st)
    (streamRef st) (nextStartTimeRef st) (activeSourcesRef st)
    (processingModelTurnRef st) (ignoringNextTurnRef st) (sessionPromiseRef
    st) (started st) (stopped st) v (emitted st) (sent st).
Definition set_emitted (v : list (string * string)) (st : State) : State :=
Build_State (connectionState st) (isMuted st) (isPlaying st) (volume st)
    (isMuted_captured st) (outputAudioContextRef st) (outputNodeRef st)
    (streamRef st) (nextStartTimeRef st) (activeSourcesRef st)
    (processingModelTurnRef st) (ignoringNextTurnRef st) (sessionPromiseRef
    st) (started st) (stopped st) (ended st) v (sent st).
Definition set_sent (v : list RealtimeInput) (st : State) : State :=
Build_State (connectionState st) (isMuted st) (isPlaying st) (volume st)
    (isMuted_captured st) (outputAudioContextRef st) (outputNodeRef st)
    (streamRef st) (nextStartTimeRef st) (activeSourcesRef st)
    (processingModelTurnRef st) (ignoringNextTurnRef st) (sessionPromiseRef
    st) (started st) (stopped st) (ended st) (emitted st) v.

Definition setMediaMute (shouldMute : bool) (st : State) : State :=
  match streamRef st with
  | Some _ => set_isMuted shouldMute (set_streamRef (Some (negb shouldMute)) st)
  | None => st
  end.

Definition stopAudioPlayback (now : Q) (st : State) : State :=
  let st := set_stopped (stopped st ∪ activeSourcesRef st) st in
  let st := set_activeSourcesRef ∅ st in
  let st := if outputAudioContextRef st then set_nextStartTimeRef now st else st in
  let st := set_processingModelTurnRef false st in
  set_isPlaying false st.

Definition send (input : RealtimeInput) (st : State) : State :=
  set_sent (sent st ++ [input]) st.

Definition sendTextMessage (text : string) (st : State) : State :=
  if sessionPromiseRef st then send (Text text) st else st.

Definition sendControlMessage (text : string) (st : State) : State :=
  if sessionPromiseRef st
  then send (Text text) (set_ignoringNextTurnRef true st)
  else st.

Definition cleanup (st : State) : State :=
  let st := set_stopped (stopped st ∪ activeSourcesRef st) st in
  let st := set_activeSourcesRef ∅ st in
  let st := set_isPlaying false st in
  let st := set_outputAudioContextRef false st in
  let st := set_streamRef None st in
  let st := set_sessionPromiseRef false st in
  let st := set_connectionState DISCONNECTED st in
  let st := set_volume 0 st in
  let st := set_isMuted false st in
  let st := set_nextStartTimeRef 0 st in
  let st := set_processingModelTurnRef false st in
  set_ignoringNextTurnRef false st.

(** [connect] (lines 119-334) when nothing in it throws, taken together
    with the [onopen] callback of the session it opens: new contexts and
    output node, a new stream whose track [setMediaMute(false)] enables,
    the session promise.  It calls neither [cleanup] nor
    [stopAudioPlayback]: [activeSourcesRef], the cursor and the two
    flags are left as they are. *)
Definition connect (st : State) : State :=
  let st := set_connectionState CONNECTING st in
  let st := set_outputAudioContextRef true st in
  let st := set_outputNodeRef true st in
  let st := set_streamRef (Some true) st in
  let st := setMediaMute false st in
  let st := set_sessionPromiseRef true st in
  set_connectionState CONNECTED st.

(** The [onclose] callback of the session (lines 314-316). *)
Definition onclose (st : State) : State :=
  set_connectionState DISCONNECTED st.

(** [processor.onaudioprocess] (lines 187-202). *)
Definition onaudioprocess (inputData : list Q) (st : State) : State :=
  let st :=
    match streamRef st with
    | Some true => set_volume (loudness inputData) st
    | _ => st
    end in
  send (Media inputData) st.

(** The [ended] listener of the source [id] (lines 273-292). *)
Definition onended (id : nat) (st : State) : State :=
  let st := set_ended (ended st ∪ {[id]}) st in
  let st := set_activeSourcesRef (activeSourcesRef st ∖ {[id]}) st in
  if size_is_0 (activeSourcesRef st) then
    let st := set_isPlaying false st in
    if negb (processingModelTurnRef st) then setMediaMute false st else st
  else st.

Definition emit (userText modelText : string) (st : State) : State :=
  set_emitted (emitted st ++ [(userText, modelText)]) st.

(** Lines 209-228: the turn-completion check that opens [onmessage]. *)
Definition onTurnComplete (message : LiveServerMessage) (st : State) : State :=
  if turnComplete message then
    let st := set_processingModelTurnRef false st in
    if ignoringNextTurnRef st then set_ignoringNextTurnRef false st else st
  else st.

(** Lines 230-239. *)
Definition onTranscription (message : LiveServerMessage) (st : State) : State :=
  if negb (ignoringNextTurnRef st) then
    if truthy (outputTranscription message)
    then emit "" (outputTranscription message) st
    else if truthy (inputTranscription message)
    then emit (inputTranscription message) "" st
    else st
  else st.

(** Lines 249-261, up to the awaited [decodeAudioData]. *)
Definition beforeDecode (now : Q) (st : State) : State :=
  let st := if negb (isMuted_captured st) then setMediaMute true st else st in
  let st := set_processingModelTurnRef true st in
  let st := set_isPlaying true st in
  set_nextStartTimeRef (Math_max (nextStartTimeRef st) now) st.

(** Lines 269-296, once the buffer is decoded. *)
Definition startSource (duration : Q) (st : State) : State :=
  let source :=
    {| src_id := length (started st);
       src_start := nextStartTimeRef st;
       src_duration := duration;
       src_rate := 1 |} in
  let st := set_started (started st ++ [source]) st in
  let st := set_activeSourcesRef ({[src_id source]} ∪ activeSourcesRef st) st in
  set_nextStartTimeRef (nextStartTimeRef st + duration) st.

(** Lines 300-312: what follows the audio block. *)
Definition afterAudio (now : Q) (message : LiveServerMessage) (st : State) : State :=
  let st :=
    if interrupted message
    then setMediaMute false (stopAudioPlayback now st)
    else st in
  if turnComplete message then
    if size_is_0 (activeSourcesRef st) then setMediaMute false st else st
  else st.

(** [onmessage] (lines 207-313).  The handler runs to its end before
    the next event is taken. *)
Definition onmessage (now : Q) (message : LiveServerMessage) (st : State) : State :=
  let st := onTurnComplete message st in
  let st := onTranscription message st in
  match inlineData message with
  | Some audio =>
      if ignoringNextTurnRef st then st
      else if outputAudioContextRef st && outputNodeRef st then
        let st := beforeDecode now st in
        match audio with
        | Decoded duration => afterAudio now message (startSource duration st)
        | Undecodable => st
        end
      else afterAudio now message st
  | None => afterAudio now message st
  end.

(** [toggleMute] (lines 341-359). *)
Definition toggleMute (now : Q) (st : State) : State :=
  if negb (size_is_0 (activeSourcesRef st)) || isPlaying st
  then setMediaMute false (stopAudioPlayback now st)
  else
    match streamRef st with
    | Some isCurrentlyEnabled => setMediaMute isCurrentlyEnabled st
    | None => st
    end.

(** What the user, the browser and the session can make happen.  [now]
    is the value of [outputAudioContextRef.current.currentTime] that the
    callback reads.  [Disconnect] is every path that ends in [cleanup]:
    [disconnect], the [onerror] callback and a [connect] that throws;
    [Close] is the [onclose] callback and [Connect] a [connect] that goes
    through. *)
Inductive Event : Type :=
  | Message (now : Q) (message : LiveServerMessage)
  | Ended (id : nat)
  | ToggleMute (now : Q)
  | SendTextMessage (text : string)
  | SendControlMessage (text : string)
  | AudioProcess (inputData : list Q)
  | Disconnect
  | Connect
  | Close.

Definition step (st : State) (ev : Event) : State :=
  match ev with
  | Message now message => onmessage now message st
  | Ended id => onended id st
  | ToggleMute now => toggleMute now st
  | SendTextMessage text => sendTextMessage text st
  | SendControlMessage text => sendControlMessage text st
  | AudioProcess inputData => onaudioprocess inputData st
  | Disconnect => cleanup st
  | Connect => connect st
  | Close => onclose st
  end.

Definition run (st : State) (events : list Event) : State :=
  fold_left step events st.

(** The events of a series of audio chunks, each given as the clock
    reading at its arrival and the duration it decodes to. *)
Definition chunks (reqs : list (Q * Q)) : list Event :=
  map (fun r => Message (fst r) (chunk (snd r))) reqs.

(** The output context and node are in place. *)
Definition outputReady (st : State) : Prop :=
  outputAudioContextRef st = true /\ outputNodeRef st = true.

(** The hook as [useState] and [useRef] initialise it. *)
Definition initial : State :=
  {| connectionState := DISCONNECTED;
     isMuted := false; isPlaying := false; volume := 0;
     isMuted_captured := false;
     outputAudioContextRef := false; outputNodeRef := false;
     streamRef := None;
     nextStartTimeRef := 0; activeSourcesRef := ∅;
     processingModelTurnRef := false; ignoringNextTurnRef := false;
     sessionPromiseRef := false;
     started := []; stopped := ∅; ended := ∅; emitted := []; sent := [] |}.

(** The hook once [connect] has gone through and [onopen] has fired:
    contexts and stream in place, microphone open, nothing scheduled. *)
Definition connected : State :=
  {| connectionState := CONNECTED;
     isMuted := false; isPlaying := false; volume := 0;
     isMuted_captured := false;
     outputAudioContextRef := true; outputNodeRef := true;
     streamRef := Some true;
     nextStartTimeRef := 0; activeSourcesRef := ∅;
     processingModelTurnRef := false; ignoringNextTurnRef := false;
     sessionPromiseRef := true;
     started := []; stopped := ∅; ended := ∅; emitted := []; sent := [] |}.

(** The microphone track is there and enabled. *)
Definition micEnabled (st : State) : bool :=
  match streamRef st with Some true => true | _ => false end.

(** Tutor audio is queued or playing. *)
Definition aiSpeaking (st : State) : bool :=
  negb (size_is_0 (activeSourcesRef st)).

(** Events that may run [stopAudioPlayback] or [cleanup]: the button,
    a message flagged [interrupted], a disconnection. *)
Definition flushes (ev : Event) : bool :=
  match ev with
  | ToggleMute _ | Disconnect => true
  | Message _ message => interrupted message
  | _ => false
  end.

(** The events of one session: all but a new [connect]. *)
Definition sameSession (ev : Event) : Prop :=
  match ev with
  | Connect => False
  | _ => True
  end.

(** [onmessage] gets as far as its [interrupted] check: the audio of
    the message, if there is any, is not discarded by the early return
    of line 246 and does not fail to decode. *)
Definition reachesInterrupted (st : State) (message : LiveServerMessage) : Prop :=
  match inlineData message with
  | None => True
  | Some audio =>
      ignoringNextTurnRef st && negb (turnComplete message) = false /\
      (outputAudioContextRef st && outputNodeRef st = false \/ audio <> Undecodable)
  end.

(** Every audio chunk of the event decodes to a non-negative duration. *)
Definition nonnegDuration (ev : Event) : Prop :=
  match ev with
  | Message _ message => 0 <= audioDuration message
  | _ => True
  end.

(** In the history [events] of a connected hook the session has
    signalled [turnComplete], and no source has been started since the
    message that carried the signal was handled. *)
Definition replyComplete (events : list Event) : Prop :=
  exists (pre : list Event) (now : Q) (message : LiveServerMessage) (post : list Event),
    events = pre ++ Message now message :: post /\
    turnComplete message = true /\
    length (started (run connected (pre ++ [Message now message]))) =
    length (started (run connected events)).

(** A series of server messages, each with the clock reading at its
    arrival. *)
Definition messages (l : list (Q * LiveServerMessage)) : list Event :=
  map (fun p => Message (fst p) (snd p)) l.

(** While a control message awaits its reply: no message completes the
    turn and the hook is not torn down. *)
Definition keepsPending (ev : Event) : Prop :=
  match ev with
  | Message _ message => turnComplete message = false
  | Disconnect => False
  | _ => True
  end.

End Control.


(** ** Revision with muting only (lines 373-684) *)

Module Mute.

(** Fields as in [Control.State]. *)
Record State := {
  connectionState : ConnectionState;
  isMuted : bool;
  volume : Q;
  outputAudioContextRef : bool;
  outputNodeRef : bool;
  streamRef : option bool;
  nextStartTimeRef : Q;
  activeSourcesRef : gset nat;
  processingModelTurnRef : bool;
  sessionPromiseRef : bool;
  started : list Source;
  stopped : gset nat;
  ended : gset nat;
  emitted : list (string * string);
  sent : list RealtimeInput
}.

Definition set_connectionState (v : ConnectionState) (st : State) : State :=
Build_State v (isMuted st) (volume st) (outputAudioContextRef st)
    (outputNodeRef st) (streamRef st) (nextStartTimeRef st) (activeSourcesRef
    st) (processingModelTurnRef st) (sessionPromiseRef st) (started st)
    (stopped st) (ended st) (emitted st) (sent st).
Definition set_isMuted (v : bool) (st : State) : State :=
Build_State (connectionState st) v (volume st) (outputAudioContextRef st)
    (outputNodeRef st) (streamRef st) (nextStartTimeRef st) (activeSourcesRef
    st) (processingModelTurnRef st) (sessionPromiseRef st) (started st)
    (stopped st) (ended st) (emitted st) (sent st).
Definition set_volume (v : Q) (st : State) : State :=
Build_State (connectionState st) (isMuted st) v (outputAudioContextRef st)
    (outputNodeRef st) (streamRef st) (nextStartTimeRef st) (activeSourcesRef
    st) (processingModelTurnRef st) (sessionPromiseRef st) (started st)
    (stopped st) (ended st) (emitted st) (sent st).
Definition set_outputAudioContextRef (v : bool) (st : State) : State :=
Build_State (connectionState st) (isMuted st) (volume st) v (outputNodeRef st)
    (streamRef st) (nextStartTimeRef st) (activeSourcesRef st)
    (processingModelTurnRef st) (sessionPromiseRef st) (started st) (stopped
    st) (ended st) (emitted st) (sent st).
Definition set_outputNodeRef (v : bool) (st : State) : State :=
Build_State (connectionState st) (isMuted st) (volume st)
    (outputAudioContextRef st) v (streamRef st) (nextStartTimeRef st)
    (activeSourcesRef st) (processingModelTurnRef st) (sessionPromiseRef st)
    (started st) (stopped st) (ended st) (emitted st) (sent st).
Definition set_streamRef (v : option bool) (st : State) : State :=
Build_State (connectionState st) (isMuted st) (volume st)
    (outputAudioContextRef st) (outputNodeRef st) v (nextStartTimeRef st)
    (activeSourcesRef st) (processingModelTurnRef st) (sessionPromiseRef st)
    (started st) (stopped st) (ended st) (emitted st) (sent st).
Definition set_nextStartTimeRef (v : Q) (st : State) : State :=
Build_State (connectionState st) (isMuted st) (volume st)
    (outputAudioContextRef st) (outputNodeRef st) (streamRef st) v
    (activeSourcesRef st) (processingModelTurnRef st) (sessionPromiseRef st)
    (started st) (stopped st) (ended st) (emitted st) (sent st).
Definition set_activeSourcesRef (v : gset nat) (st : State) : State :=
Build_State (connectionState st) (isMuted st) (volume st)
    (outputAudioContextRef st) (outputNodeRef st) (streamRef st)
    (nextStartTimeRef st) v (processingModelTurnRef st) (sessionPromiseRef st)
    (started st) (stopped st) (ended st) (emitted st) (sent st).
Definition set_processingModelTurnRef (v : bool) (st : State) : State :=
Build_State (connectionState st) (isMuted st) (volume st)
    (outputAudioContextRef st) (outputNodeRef st) (streamRef st)
    (nextStartTimeRef st) (activeSourcesRef st) v (sessionPromiseRef st)
    (started st) (stopped st) (ended st) (emitted st) (sent st).
Definition set_sessionPromiseRef (v : bool) (st : State) : State :=
Build_State (connectionState st) (isMuted st) (volume st)
    (outputAudioContextRef st) (outputNodeRef st) (streamRef st)
    (nextStartTimeRef st) (activeSourcesRef st) (processingModelTurnRef st) v
    (started st) (stopped st) (ended st) (emitted st) (sent st).
Definition set_started (v : list Source) (st : State) : State :=
Build_State (connectionState st) (isMuted st) (volume st)
    (outputAudioContextRef st) (outputNodeRef st) (streamRef st)
    (nextStartTimeRef st) (activeSourcesRef st) (processingModelTurnRef st)
    (sessionPromiseRef st) v (stopped st) (ended st) (emitted st) (sent st).
Definition set_stopped (v : gset nat) (st : State) : State :=
Build_State (connectionState st) (isMuted st) (volume st)
    (outputAudioContextRef st) (outputNodeRef st) (streamRef st)
    (nextStartTimeRef st) (activeSourcesRef st) (processingModelTurnRef st)
    (sessionPromiseRef st) (started st) v (ended st) (emitted st) (sent st).
Definition set_ended (v : gset nat) (st : State) : State :=
Build_State (connectionState st) (isMuted st) (volume st)
    (outputAudioContextRef st) (outputNodeRef st) (streamRef st)
    (nextStartTimeRef st) (activeSourcesRef st) (processingModelTurnRef st)
    (sessionPromiseRef st) (started st) (stopped st) v (emitted st) (sent st).
Definition set_emitted (v : list (string * string)) (st : State) : State :=
Build_State (connectionState st) (isMuted st) (volume st)
    (outputAudioContextRef st) (outputNodeRef st) (streamRef st)
    (nextStartTimeRef st) (activeSourcesRef st) (processingModelTurnRef st)
    (sessionPromiseRef st) (started st) (stopped st) (ended st) v (sent st).
Definition set_sent (v : list RealtimeInput) (st : State) : State :=
Build_State (connectionState st) (isMuted st) (volume st)
    (outputAudioContextRef st) (outputNodeRef st) (streamRef st)
    (nextStartTimeRef st) (activeSourcesRef st) (processingModelTurnRef st)
    (sessionPromiseRef st) (started st) (stopped st) (ended st) (emitted st)
    v.

Definition setMediaMute (shouldMute : bool) (st : State) : State :=
  match streamRef st with
  | Some _ => set_isMuted shouldMute (set_streamRef (Some (negb shouldMute)) st)
  | None => st
  end.

Definition stopAudioPlayback (now : Q) (st : State) : State :=
  if outputAudioContextRef st then
    let st := set_stopped (stopped st ∪ activeSourcesRef st) st in
    let st := set_activeSourcesRef ∅ st in
    let st := set_nextStartTimeRef now st in
    set_processingModelTurnRef false st
  else st.

Definition send (input : RealtimeInput) (st : State) : State :=
  set_sent (sent st ++ [input]) st.

Definition sendTextMessage (text : string) (st : State) : State :=
  if sessionPromiseRef st then send (Text text) st else st.

Definition cleanup (st : State) : State :=
  let st := set_stopped (stopped st ∪ activeSourcesRef st) st in
  let st := set_activeSourcesRef ∅ st in
  let st := set_outputAudioContextRef false st in
  let st := set_streamRef None st in
  let st := set_sessionPromiseRef false st in
  let st := set_connectionState DISCONNECTED st in
  let st := set_volume 0 st in
  let st := set_isMuted false st in
  let st := set_nextStartTimeRef 0 st in
  set_processingModelTurnRef false st.

(** [connect] (lines 468-631) when nothing in it throws, taken together
    with [onopen]; as in [Control], the playback set, the cursor and
    [processingModelTurnRef] are left as they are. *)
Definition connect (st : State) : State :=
  let st := set_connectionState CONNECTING st in
  let st := set_outputAudioContextRef true st in
  let st := set_outputNodeRef true st in
  let st := set_streamRef (Some true) st in
  let st := setMediaMute false st in
  let st := set_sessionPromiseRef true st in
  set_connectionState CONNECTED st.

(** The [onclose] callback of the session (lines 611-613). *)
Definition onclose (st : State) : State :=
  set_connectionState DISCONNECTED st.

(** [processor.onaudioprocess] (lines 534-549). *)
Definition onaudioprocess (inputData : list Q) (st : State) : State :=
  let st :=
    match streamRef st with
    | Some true => set_volume (loudness inputData) st
    | _ => st
    end in
  send (Media inputData) st.

(** The [ended] listener of the source [id] (lines 592-598). *)
Definition onended (id : nat) (st : State) : State :=
  let st := set_ended (ended st ∪ {[id]}) st in
  let st := set_activeSourcesRef (activeSourcesRef st ∖ {[id]}) st in
  if size_is_0 (activeSourcesRef st) && negb (processingModelTurnRef st)
  then setMediaMute false st
  else st.

Definition emit (userText modelText : string) (st : State) : State :=
  set_emitted (emitted st ++ [(userText, modelText)]) st.

(** Lines 555-561. *)
Definition onTranscription (message : LiveServerMessage) (st : State) : State :=
  if truthy (outputTranscription message)
  then emit "" (outputTranscription message) st
  else if truthy (inputTranscription message)
  then emit (inputTranscription message) "" st
  else st.

(** Lines 563-569. *)
Definition onTurnComplete (message : LiveServerMessage) (st : State) : State :=
  if turnComplete message then
    let st := set_processingModelTurnRef false st in
    if size_is_0 (activeSourcesRef st) then setMediaMute false st else st
  else st.

(** Lines 573-579, up to the awaited [decodeAudioData]. *)
Definition beforeDecode (now : Q) (st : State) : State :=
  let st := setMediaMute true st in
  let st := set_processingModelTurnRef true st in
  set_nextStartTimeRef (Math_max (nextStartTimeRef st) now) st.

(** Lines 588-602, once the buffer is decoded. *)
Definition startSource (duration : Q) (st : State) : State :=
  let source :=
    {| src_id := length (started st);
       src_start := nextStartTimeRef st;
       src_duration := duration;
       src_rate := 1 |} in
  let st := set_started (started st ++ [source]) st in
  let st := set_activeSourcesRef ({[src_id source]} ∪ activeSourcesRef st) st in
  set_nextStartTimeRef (nextStartTimeRef st + duration) st.

(** Lines 605-609. *)
Definition onInterrupted (now : Q) (message : LiveServerMessage) (st : State) : State :=
  if interrupted message
  then setMediaMute false (stopAudioPlayback now st)
  else st.

(** [onmessage] (lines 554-610). *)
Definition onmessage (now : Q) (message : LiveServerMessage) (st : State) : State :=
  let st := onTranscription message st in
  let st := onTurnComplete message st in
  match inlineData message with
  | Some audio =>
      if outputAudioContextRef st && outputNodeRef st then
        let st := beforeDecode now st in
        match audio with
        | Decoded duration => onInterrupted now message (startSource duration st)
        | Undecodable => st
        end
      else onInterrupted now message st
  | None => onInterrupted now message st
  end.

(** [toggleMute] (lines 637-654). *)
Definition toggleMute (now : Q) (st : State) : State :=
  if negb (size_is_0 (activeSourcesRef st))
  then setMediaMute false (stopAudioPlayback now st)
  else
    match streamRef st with
    | Some isCurrentlyEnabled => setMediaMute isCurrentlyEnabled st
    | None => st
    end.

(** Events as in [Control]. *)
Inductive Event : Type :=
  | Message (now : Q) (message : LiveServerMessage)
  | Ended (id : nat)
  | ToggleMute (now : Q)
  | SendTextMessage (text : string)
  | AudioProcess (inputData : list Q)
  | Disconnect
  | Connect
  | Close.

Definition step (st : State) (ev : Event) : State :=
  match ev with
  | Message now message => onmessage now message st
  | Ended id => onended id st
  | ToggleMute now => toggleMute now st
  | SendTextMessage text => sendTextMessage text st
  | AudioProcess inputData => onaudioprocess inputData st
  | Disconnect => cleanup st
  | Connect => connect st
  | Close => onclose st
  end.

Definition run (st : State) (events : list Event) : State :=
  fold_left step events st.

(** The events of a series of audio chunks, each given as the clock
    reading at its arrival and the duration it decodes to. *)
Definition chunks (reqs : list (Q * Q)) : list Event :=
  map (fun r => Message (fst r) (chunk (snd r))) reqs.

(** The output context and node are in place. *)
Definition outputReady (st : State) : Prop :=
  outputAudioContextRef st = true /\ outputNodeRef st = true.

Definition initial : State :=
  {| connectionState := DISCONNECTED;
     isMuted := false; volume := 0;
     outputAudioContextRef := false; outputNodeRef := false;
     streamRef := None;
     nextStartTimeRef := 0; activeSourcesRef := ∅;
     processingModelTurnRef := false;
     sessionPromiseRef := false;
     started := []; stopped := ∅; ended := ∅; emitted := []; sent := [] |}.

Definition connected : State :=
  {| connectionState := CONNECTED;
     isMuted := false; volume := 0;
     outputAudioContextRef := true; outputNodeRef := true;
     streamRef := Some true;
     nextStartTimeRef := 0; activeSourcesRef := ∅;
     processingModelTurnRef := false;
     sessionPromiseRef := true;
     started := []; stopped := ∅; ended := ∅; emitted := []; sent := [] |}.

Definition micEnabled (st : State) : bool :=
  match streamRef st with Some true => true | _ => false end.

Definition aiSpeaking (st : State) : bool :=
  negb (size_is_0 (activeSourcesRef st)).

Definition flushes (ev : Event) : bool :=
  match ev with
  | ToggleMute _ | Disconnect => true
  | Message _ message => interrupted message
  | _ => false
  end.

Definition sameSession (ev : Event) : Prop :=
  match ev with
  | Connect => False
  | _ => True
  end.

(** [onmessage] gets as far as its [interrupted] check: the audio of
    the message, if there is any, does not fail to decode. *)
Definition reachesInterrupted (st : State) (message : LiveServerMessage) : Prop :=
  match inlineData message with
  | None => True
  | Some audio =>
      outputAudioContextRef st && outputNodeRef st = false \/ audio <> Undecodable
  end.

Definition replyComplete (events : list Event) : Prop :=
  exists (pre : list Event) (now : Q) (message : LiveServerMessage) (post : list Event),
    events = pre ++ Message now message :: post /\
    turnComplete message = true /\
    length (started (run connected (pre ++ [Message now message]))) =
    length (started (run connected events)).

End Mute.

(** ** Revision with playback speed (lines 684-967) *)

Module Speed.

(** [audioSpeedRef] mirrors the [audioSpeed] prop; [streamRef] only
    records whether the stream is there, this revision never disables
    the track. *)
Record State := {
  connectionState : ConnectionState;
  volume : Q;
  audioSpeedRef : Q;
  outputAudioContextRef : bool;
  outputNodeRef : bool;
  streamRef : bool;
  nextStartTimeRef : Q;
  activeSourcesRef : gset nat;
  sessionPromiseRef : bool;
  started : list Source;
  stopped : gset nat;
  ended : gset nat;
  emitted : list (string * string);
  sent : list RealtimeInput
}.

Definition set_connectionState (v : ConnectionState) (st : State) : State :=
Build_State v (volume st) (audioSpeedRef st) (outputAudioContextRef st)
    (outputNodeRef st) (streamRef st) (nextStartTimeRef st) (activeSourcesRef
    st) (sessionPromiseRef st) (started st) (stopped st) (ended st) (emitted
    st) (sent st).
Definition set_volume (v : Q) (st : State) : State :=
Build_State (connectionState st) v (audioSpeedRef st) (outputAudioContextRef
    st) (outputNodeRef st) (streamRef st) (nextStartTimeRef st)
    (activeSourcesRef st) (sessionPromiseRef st) (started st) (stopped st)
    (ended st) (emitted st) (sent st).
Definition set_audioSpeedRef (v : Q) (st : State) : State :=
Build_State (connectionState st) (volume st) v (outputAudioContextRef st)
    (outputNodeRef st) (streamRef st) (nextStartTimeRef st) (activeSourcesRef
    st) (sessionPromiseRef st) (started st) (stopped st) (ended st) (emitted
    st) (sent st).
Definition set_outputAudioContextRef (v : bool) (st : State) : State :=
Build_State (connectionState st) (volume st) (audioSpeedRef st) v
    (outputNodeRef st) (streamRef st) (nextStartTimeRef st) (activeSourcesRef
    st) (sessionPromiseRef st) (started st) (stopped st) (ended st) (emitted
    st) (sent st).
Definition set_outputNodeRef (v : bool) (st : State) : State :=
Build_State (connectionState st) (volume st) (audioSpeedRef st)
    (outputAudioContextRef st) v (streamRef st) (nextStartTimeRef st)
    (activeSourcesRef st) (sessionPromiseRef st) (started st) (stopped st)
    (ended st) (emitted st) (sent st).
Definition set_streamRef (v : bool) (st : State) : State :=
Build_State (connectionState st) (volume st) (audioSpeedRef st)
    (outputAudioContextRef st) (outputNodeRef st) v (nextStartTimeRef st)
    (activeSourcesRef st) (sessionPromiseRef st) (started st) (stopped st)
    (ended st) (emitted st) (sent st).
Definition set_nextStartTimeRef (v : Q) (st : State) : State :=
Build_State (connectionState st) (volume st) (audioSpeedRef st)
    (outputAudioContextRef st) (outputNodeRef st) (streamRef st) v
    (activeSourcesRef st) (sessionPromiseRef st) (started st) (stopped st)
    (ended st) (emitted st) (sent st).
Definition set_activeSourcesRef (v : gset nat) (st : State) : State :=
Build_State (connectionState st) (volume st) (audioSpeedRef st)
    (outputAudioContextRef st) (outputNodeRef st) (streamRef st)
    (nextStartTimeRef st) v (sessionPromiseRef st) (started st) (stopped st)
    (ended st) (emitted st) (sent st).
Definition set_sessionPromiseRef (v : bool) (st : State) : State :=
Build_State (connectionState st) (volume st) (audioSpeedRef st)
    (outputAudioContextRef st) (outputNodeRef st) (streamRef st)
    (nextStartTimeRef st) (activeSourcesRef st) v (started st) (stopped st)
    (ended st) (emitted st) (sent st).
Definition set_started (v : list Source) (st : State) : State :=
Build_State (connectionState st) (volume st) (audioSpeedRef st)
    (outputAudioContextRef st) (outputNodeRef st) (streamRef st)
    (nextStartTimeRef st) (activeSourcesRef st) (sessionPromiseRef st) v
    (stopped st) (ended st) (emitted st) (sent st).
Definition set_stopped (v : gset nat) (st : State) : State :=
Build_State (connectionState st) (volume st) (audioSpeedRef st)
    (outputAudioContextRef st) (outputNodeRef st) (streamRef st)
    (nextStartTimeRef st) (activeSourcesRef st) (sessionPromiseRef st)
    (started st) v (ended st) (emitted st) (sent st).
Definition set_ended (v : gset nat) (st : State) : State :=
Build_State (connectionState st) (volume st) (audioSpeedRef st)
    (outputAudioContextRef st) (outputNodeRef st) (streamRef st)
    (nextStartTimeRef st) (activeSourcesRef st) (sessionPromiseRef st)
    (started st) (stopped st) v (emitted st) (sent st).
Definition set_emitted (v : list (string * string)) (st : State) : State :=
Build_State (connectionState st) (volume st) (audioSpeedRef st)
    (outputAudioContextRef st) (outputNodeRef st) (streamRef st)
    (nextStartTimeRef st) (activeSourcesRef st) (sessionPromiseRef st)
    (started st) (stopped st) (ended st) v (sent st).
Definition set_sent (v : list RealtimeInput) (st : State) : State :=
Build_State (connectionState st) (volume st) (audioSpeedRef st)
    (outputAudioContextRef st) (outputNodeRef st) (streamRef st)
    (nextStartTimeRef st) (activeSourcesRef st) (sessionPromiseRef st)
    (started st) (stopped st) (ended st) (emitted st) v.

Definition send (input : RealtimeInput) (st : State) : State :=
  set_sent (sent st ++ [input]) st.

(** The effect of lines 718-720, run when the [audioSpeed] prop changes. *)
Definition setAudioSpeed (audioSpeed : Q) (st : State) : State :=
  set_audioSpeedRef audioSpeed st.

Definition cleanup (st : State) : State :=
  let st := set_stopped (stopped st ∪ activeSourcesRef st) st in
  let st := set_activeSourcesRef ∅ st in
  let st := set_outputAudioContextRef false st in
  let st := set_streamRef false st in
  let st := set_sessionPromiseRef false st in
  let st := set_connectionState DISCONNECTED st in
  let st := set_volume 0 st in
  set_nextStartTimeRef 0 st.

(** [connect] (lines 758-927) when nothing in it throws, taken together
    with [onopen]; the playback set and the cursor are left as they
    are. *)
Definition connect (st : State) : State :=
  let st := set_connectionState CONNECTING st in
  let st := set_outputAudioContextRef true st in
  let st := set_outputNodeRef true st in
  let st := set_streamRef true st in
  let st := set_sessionPromiseRef true st in
  set_connectionState CONNECTED st.

(** The [onclose] callback of the session (lines 906-908). *)
Definition onclose (st : State) : State :=
  set_connectionState DISCONNECTED st.

(** [processor.onaudioprocess] (lines 836-849). *)
Definition onaudioprocess (inputData : list Q) (st : State) : State :=
  send (Media inputData) (set_volume (loudness inputData) st).

(** The [ended] listener of the source [id] (lines 886-888). *)
Definition onended (id : nat) (st : State) : State :=
  let st := set_ended (ended st ∪ {[id]}) st in
  set_activeSourcesRef (activeSourcesRef st ∖ {[id]}) st.

Definition emit (userText modelText : string) (st : State) : State :=
  set_emitted (emitted st ++ [(userText, modelText)]) st.

(** Lines 856-862. *)
Definition onTranscription (message : LiveServerMessage) (st : State) : State :=
  if truthy (outputTranscription message)
  then emit "" (outputTranscription message) st
  else if truthy (inputTranscription message)
  then emit (inputTranscription message) "" st
  else st.

(** Lines 867-870, up to the awaited [decodeAudioData]. *)
Definition beforeDecode (now : Q) (st : State) : State :=
  set_nextStartTimeRef (Math_max (nextStartTimeRef st) now) st.

(** Lines 879-894, once the buffer is decoded. *)
Definition startSource (duration : Q) (st : State) : State :=
  let currentSpeed := audioSpeedRef st in
  let source :=
    {| src_id := length (started st);
       src_start := nextStartTimeRef st;
       src_duration := duration;
       src_rate := currentSpeed |} in
  let st := set_started (started st ++ [source]) st in
  let st := set_activeSourcesRef ({[src_id source]} ∪ activeSourcesRef st) st in
  set_nextStartTimeRef (nextStartTimeRef st + duration / currentSpeed) st.

(** Lines 897-904. *)
Definition onInterrupted (message : LiveServerMessage) (st : State) : State :=
  if interrupted message then
    let st := set_stopped (stopped st ∪ activeSourcesRef st) st in
    let st := set_activeSourcesRef ∅ st in
    set_nextStartTimeRef 0 st
  else st.

(** [onmessage] (lines 854-905). *)
Definition onmessage (now : Q) (message : LiveServerMessage) (st : State) : State :=
  let st := onTranscription message st in
  match inlineData message with
  | Some audio =>
      if outputAudioContextRef st && outputNodeRef st then
        let st := beforeDecode now st in
        match audio with
        | Decoded duration => onInterrupted message (startSource duration st)
        | Undecodable => st
        end
      else onInterrupted message st
  | None => onInterrupted message st
  end.

(** Events as in [Control], with the change of the [audioSpeed] prop. *)
Inductive Event : Type :=
  | Message (now : Q) (message : LiveServerMessage)
  | Ended (id : nat)
  | AudioProcess (inputData : list Q)
  | SetAudioSpeed (audioSpeed : Q)
  | Disconnect
  | Connect
  | Close.

Definition step (st : State) (ev : Event) : State :=
  match ev with
  | Message now message => onmessage now message st
  | Ended id => onended id st
  | AudioProcess inputData => onaudioprocess inputData st
  | SetAudioSpeed audioSpeed => setAudioSpeed audioSpeed st
  | Disconnect => cleanup st
  | Connect => connect st
  | Close => onclose st
  end.

Definition run (st : State) (events : list Event) : State :=
  fold_left step events st.

(** The events of a series of audio chunks, each given as the clock
    reading at its arrival and the duration it decodes to. *)
Definition chunks (reqs : list (Q * Q)) : list Event :=
  map (fun r => Message (fst r) (chunk (snd r))) reqs.

(** The output context and node are in place. *)
Definition outputReady (st : State) : Prop :=
  outputAudioContextRef st = true /\ outputNodeRef st = true.

(** The hook as it is mounted; [App.tsx] starts [audioSpeed] at [1.0]. *)
Definition initial : State :=
  {| connectionState := DISCONNECTED;
     volume := 0; audioSpeedRef := 1;
     outputAudioContextRef := false; outputNodeRef := false;
     streamRef := false;
     nextStartTimeRef := 0; activeSourcesRef := ∅;
     sessionPromiseRef := false;
     started := []; stopped := ∅; ended := ∅; emitted := []; sent := [] |}.

(** The hook once connected. *)
Definition connected : State :=
  {| connectionState := CONNECTED;
     volume := 0; audioSpeedRef := 1;
     outputAudioContextRef := true; outputNodeRef := true;
     streamRef := true;
     nextStartTimeRef := 0; activeSourcesRef := ∅;
     sessionPromiseRef := true;
     started := []; stopped := ∅; ended := ∅; emitted := []; sent := [] |}.

Definition flushes (ev : Event) : bool :=
  match ev with
  | Disconnect => true
  | Message _ message => interrupted message
  | _ => false
  end.

Definition nonnegDuration (ev : Event) : Prop :=
  match ev with
  | Message _ message => 0 <= audioDuration message
  | _ => True
  end.

(** The speed setting stays positive. *)
Definition positiveSpeed (ev : Event) : Prop :=
  match ev with
  | SetAudioSpeed audioSpeed => 0 < audioSpeed
  | _ => True
  end.

End Speed.

(** ** The hook with a turn state and a playback queue ([App.tsx], lines 227-528) *)

Module Turns.

(** [audioContextsRef], [streamRef], [processorRef] and [sessionRef]
    record whether the ref is non-null.  [audioQueueRef] holds the
    decoded buffers, each given by its duration, oldest first. *)
Record State := {
  turnState : TurnState;
  connectionState : ConnectionState;
  errorMessage : option string;
  volume : Q;
  currentSpeedModeRef : SpeedMode;
  pendingSpeedUpdateRef : bool;
  audioContextsRef : bool;
  streamRef : bool;
  processorRef : bool;
  audioQueueRef : list Q;
  isPlayingRef : bool;
  currentSourceRef : option nat;
  nextStartTimeRef : Q;
  isInterruptedRef : bool;
  sessionRef : bool;
  started : list Source;
  stopped : gset nat;
  emitted : list (string * string);
  sent : list RealtimeInput
}.

Definition set_turnState (v : TurnState) (st : State) : State :=
Build_State v (connectionState st) (errorMessage st) (volume st)
    (currentSpeedModeRef st) (pendingSpeedUpdateRef st) (audioContextsRef st)
    (streamRef st) (processorRef st) (audioQueueRef st) (isPlayingRef st)
    (currentSourceRef st) (nextStartTimeRef st) (isInterruptedRef st)
    (sessionRef st) (started st) (stopped st) (emitted st) (sent st).
Definition set_connectionState (v : ConnectionState) (st : State) : State :=
Build_State (turnState st) v (errorMessage st) (volume st)
    (currentSpeedModeRef st) (pendingSpeedUpdateRef st) (audioContextsRef st)
    (streamRef st) (processorRef st) (audioQueueRef st) (isPlayingRef st)
    (currentSourceRef st) (nextStartTimeRef st) (isInterruptedRef st)
    (sessionRef st) (started st) (stopped st) (emitted st) (sent st).
Definition set_errorMessage (v : option string) (st : State) : State :=
Build_State (turnState st) (connectionState st) v (volume st)
    (currentSpeedModeRef st) (pendingSpeedUpdateRef st) (audioContextsRef st)
    (streamRef st) (processorRef st) (audioQueueRef st) (isPlayingRef st)
    (currentSourceRef st) (nextStartTimeRef st) (isInterruptedRef st)
    (sessionRef st) (started st) (stopped st) (emitted st) (sent st).
Definition set_volume (v : Q) (st : State) : State :=
Build_State (turnState st) (connectionState st) (errorMessage st) v
    (currentSpeedModeRef st) (pendingSpeedUpdateRef st) (audioContextsRef st)
    (streamRef st) (processorRef st) (audioQueueRef st) (isPlayingRef st)
    (currentSourceRef st) (nextStartTimeRef st) (isInterruptedRef st)
    (sessionRef st) (started st) (stopped st) (emitted st) (sent st).
Definition set_currentSpeedModeRef (v : SpeedMode) (st : State) : State :=
Build_State (turnState st) (connectionState st) (errorMessage st) (volume st)
    v (pendingSpeedUpdateRef st) (audioContextsRef st) (streamRef st)
    (processorRef st) (audioQueueRef st) (isPlayingRef st) (currentSourceRef
    st) (nextStartTimeRef st) (isInterruptedRef st) (sessionRef st) (started
    st) (stopped st) (emitted st) (sent st).
Definition set_pendingSpeedUpdateRef (v : bool) (st : State) : State :=
Build_State (turnState st) (connectionState st) (errorMessage st) (volume st)
    (currentSpeedModeRef st) v (audioContextsRef st) (streamRef st)
    (processorRef st) (audioQueueRef st) (isPlayingRef st) (currentSourceRef
    st) (nextStartTimeRef st) (isInterruptedRef st) (sessionRef st) (started
    st) (stopped st) (emitted st) (sent st).
Definition set_audioContextsRef (v : bool) (st : State) : State :=
Build_State (turnState st) (connectionState st) (errorMessage st) (volume st)
    (currentSpeedModeRef st) (pendingSpeedUpdateRef st) v (streamRef st)
    (processorRef st) (audioQueueRef st) (isPlayingRef st) (currentSourceRef
    st) (nextStartTimeRef st) (isInterruptedRef st) (sessionRef st) (started
    st) (stopped st) (emitted st) (sent st).
Definition set_streamRef (v : bool) (st : State) : State :=
Build_State (turnState st) (connectionState st) (errorMessage st) (volume st)
    (currentSpeedModeRef st) (pendingSpeedUpdateRef st) (audioContextsRef st)
    v (processorRef st) (audioQueueRef st) (isPlayingRef st) (currentSourceRef
    st) (nextStartTimeRef st) (isInterruptedRef st) (sessionRef st) (started
    st) (stopped st) (emitted st) (sent st).
Definition set_processorRef (v : bool) (st : State) : State :=
Build_State (turnState st) (connectionState st) (errorMessage st) (volume st)
    (currentSpeedModeRef st) (pendingSpeedUpdateRef st) (audioContextsRef st)
    (streamRef st) v (audioQueueRef st) (isPlayingRef st) (currentSourceRef
    st) (nextStartTimeRef st) (isInterruptedRef st) (sessionRef st) (started
    st) (stopped st) (emitted st) (sent st).
Definition set_audioQueueRef (v : list Q) (st : State) : State :=
Build_State (turnState st) (connectionState st) (errorMessage st) (volume st)
    (currentSpeedModeRef st) (pendingSpeedUpdateRef st) (audioContextsRef st)
    (streamRef st) (processorRef st) v (isPlayingRef st) (currentSourceRef st)
    (nextStartTimeRef st) (isInterruptedRef st) (sessionRef st) (started st)
    (stopped st) (emitted st) (sent st).
Definition set_isPlayingRef (v : bool) (st : State) : State :=
Build_State (turnState st) (connectionState st) (errorMessage st) (volume st)
    (currentSpeedModeRef st) (pendingSpeedUpdateRef st) (audioContextsRef st)
    (streamRef st) (processorRef st) (audioQueueRef st) v (currentSourceRef
    st) (nextStartTimeRef st) (isInterruptedRef st) (sessionRef st) (started
    st) (stopped st) (emitted st) (sent st).
Definition set_currentSourceRef (v : option nat) (st : State) : State :=
Build_State (turnState st) (connectionState st) (errorMessage st) (volume st)
    (currentSpeedModeRef st) (pendingSpeedUpdateRef st) (audioContextsRef st)
    (streamRef st) (processorRef st) (audioQueueRef st) (isPlayingRef st) v
    (nextStartTimeRef st) (isInterruptedRef st) (sessionRef st) (started st)
    (stopped st) (emitted st) (sent st).
Definition set_nextStartTimeRef (v : Q) (st : State) : State :=
Build_State (turnState st) (connectionState st) (errorMessage st) (volume st)
    (currentSpeedModeRef st) (pendingSpeedUpdateRef st) (audioContextsRef st)
    (streamRef st) (processorRef st) (audioQueueRef st) (isPlayingRef st)
    (currentSourceRef st) v (isInterruptedRef st) (sessionRef st) (started st)
    (stopped st) (emitted st) (sent st).
Definition set_isInterruptedRef (v : bool) (st : State) : State :=
Build_State (turnState st) (connectionState st) (errorMessage st) (volume st)
    (currentSpeedModeRef st) (pendingSpeedUpdateRef st) (audioContextsRef st)
    (streamRef st) (processorRef st) (audioQueueRef st) (isPlayingRef st)
    (currentSourceRef st) (nextStartTimeRef st) v (sessionRef st) (started st)
    (stopped st) (emitted st) (sent st).
Definition set_sessionRef (v : bool) (st : State) : State :=
Build_State (turnState st) (connectionState st) (errorMessage st) (volume st)
    (currentSpeedModeRef st) (pendingSpeedUpdateRef st) (audioContextsRef st)
    (streamRef st) (processorRef st) (audioQueueRef st) (isPlayingRef st)
    (currentSourceRef st) (nextStartTimeRef st) (isInterruptedRef st) v
    (started st) (stopped st) (emitted st) (sent st).
Definition set_started (v : list Source) (st : State) : State :=
Build_State (turnState st) (connectionState st) (errorMessage st) (volume st)
    (currentSpeedModeRef st) (pendingSpeedUpdateRef st) (audioContextsRef st)
    (streamRef st) (processorRef st) (audioQueueRef st) (isPlayingRef st)
    (currentSourceRef st) (nextStartTimeRef st) (isInterruptedRef st)
    (sessionRef st) v (stopped st) (emitted st) (sent st).
Definition set_stopped (v : gset nat) (st : State) : State :=
Build_State (turnState st) (connectionState st) (errorMessage st) (volume st)
    (currentSpeedModeRef st) (pendingSpeedUpdateRef st) (audioContextsRef st)
    (streamRef st) (processorRef st) (audioQueueRef st) (isPlayingRef st)
    (currentSourceRef st) (nextStartTimeRef st) (isInterruptedRef st)
    (sessionRef st) (started st) v (emitted st) (sent st).
Definition set_emitted (v : list (string * string)) (st : State) : State :=
Build_State (turnState st) (connectionState st) (errorMessage st) (volume st)
    (currentSpeedModeRef st) (pendingSpeedUpdateRef st) (audioContextsRef st)
    (streamRef st) (processorRef st) (audioQueueRef st) (isPlayingRef st)
    (currentSourceRef st) (nextStartTimeRef st) (isInterruptedRef st)
    (sessionRef st) (started st) (stopped st) v (sent st).
Definition set_sent (v : list RealtimeInput) (st : State) : State :=
Build_State (turnState st) (connectionState st) (errorMessage st) (volume st)
    (currentSpeedModeRef st) (pendingSpeedUpdateRef st) (audioContextsRef st)
    (streamRef st) (processorRef st) (audioQueueRef st) (isPlayingRef st)
    (currentSourceRef st) (nextStartTimeRef st) (isInterruptedRef st)
    (sessionRef st) (started st) (stopped st) (emitted st) v.

Definition getSystemPromptForSpeed (mode : SpeedMode) : string :=
  match mode with
  | v_slow => "System: Speak extremely slowly and clearly."
  | slow => "System: Speak slowly."
  | fast => "System: Speak fast."
  | v_fast => "System: Speak very fast."
  | normal => "System: Speak at a normal conversational pace."
  end.

Definition send (input : RealtimeInput) (st : State) : State :=
  set_sent (sent st ++ [input]) st.

(** [playNextInQueue] (lines 274-310); [now] is [ctx.currentTime]. *)
Definition playNextInQueue (now : Q) (st : State) : State :=
  if negb (audioContextsRef st) || isInterruptedRef st then st
  else
    match audioQueueRef st with
    | [] => set_turnState USER_SPEAKING (set_isPlayingRef false st)
    | buffer :: rest =>
        let st := set_isPlayingRef true st in
        let st := set_turnState AI_SPEAKING st in
        let st := set_audioQueueRef rest st in
        let st :=
          if Qlt_le_dec (nextStartTimeRef st) now
          then set_nextStartTimeRef (now + (5 # 100)) st
          else st in
        let source :=
          {| src_id := length (started st);
             src_start := nextStartTimeRef st;
             src_duration := buffer;
             src_rate := 1 |} in
        let st := set_started (started st ++ [source]) st in
        let st := set_nextStartTimeRef (nextStartTimeRef st + buffer) st in
        set_currentSourceRef (Some (src_id source)) st
    end.

(** [source.onended] of the source [id] (lines 305-309). *)
Definition onended (id : nat) (now : Q) (st : State) : State :=
  match currentSourceRef st with
  | Some current => if Nat.eqb current id then playNextInQueue now st else st
  | None => st
  end.

(** [queueAudio] (lines 312-329) splits at its [await]: the two tests
    run when it is called, the rest once the buffer is decoded. *)
Definition queueAudio_accepts (st : State) : bool :=
  negb (isInterruptedRef st) && audioContextsRef st.

Definition queueAudio_decoded (now : Q) (audio : Audio) (st : State) : State :=
  match audio with
  | Decoded buffer =>
      let st := set_audioQueueRef (audioQueueRef st ++ [buffer]) st in
      if negb (isPlayingRef st) then playNextInQueue now st else st
  | Undecodable => st
  end.

(** [interrupt] (lines 331-353). *)
Definition interrupt (st : State) : State :=
  let st := set_isInterruptedRef true st in
  let st :=
    match currentSourceRef st with
    | Some current =>
        set_currentSourceRef None (set_stopped (stopped st ∪ {[current]}) st)
    | None => st
    end in
  let st := set_audioQueueRef [] st in
  let st := set_isPlayingRef false st in
  let st := set_nextStartTimeRef 0 st in
  let st := set_turnState USER_SPEAKING st in
  if sessionRef st then send (Text ".") st else st.

(** [changeSpeed] (lines 355-366). *)
Definition changeSpeed (mode : SpeedMode) (st : State) : State :=
  let st := set_currentSpeedModeRef mode st in
  let st := set_pendingSpeedUpdateRef true st in
  if negb (isPlayingRef st) && sessionRef st
  then set_pendingSpeedUpdateRef false (send (Text (getSystemPromptForSpeed mode)) st)
  else st.

(** [disconnect] (lines 370-392). *)
Definition disconnect (st : State) : State :=
  let st := set_processorRef false st in
  let st := set_audioContextsRef false st in
  let st := set_sessionRef false st in
  let st := set_connectionState DISCONNECTED st in
  let st := set_turnState USER_SPEAKING st in
  let st := set_errorMessage None st in
  set_volume 0 st.

(** [connect] (lines 394-516) when nothing in it throws, taken together
    with the [onopen] callback of the session it opens. *)
Definition connect (st : State) : State :=
  let st := disconnect st in
  let st := set_connectionState CONNECTING st in
  let st := set_streamRef true st in
  let st := set_audioContextsRef true st in
  let st := set_processorRef true st in
  let st := set_connectionState CONNECTED st in
  let st := set_turnState USER_SPEAKING st in
  set_sessionRef true st.

(** [connect] when it throws (lines 511-515), at [getUserMedia] or
    later: [haveStream] tells whether [streamRef] had been assigned by
    then, [message] is [e.message], empty when absent.  The contexts and
    the processor it may have set are cleared again by [disconnect]. *)
Definition connect_failed (message : string) (haveStream : bool) (st : State) : State :=
  let st := disconnect st in
  let st := set_connectionState CONNECTING st in
  let st := if haveStream then set_streamRef true st else st in
  let st :=
    set_errorMessage (Some (if truthy message then message else "Failed to connect")) st in
  disconnect st.

(** The [onclose] and [onerror] callbacks of the session (lines 470-477). *)
Definition onclose (st : State) : State := disconnect st.

Definition onerror (st : State) : State :=
  disconnect (set_errorMessage (Some "Connection Error") st).

Definition emit (userText modelText : string) (st : State) : State :=
  set_emitted (emitted st ++ [(userText, modelText)]) st.

(** Lines 454-463 of [onmessage]. *)
Definition onTranscription (message : LiveServerMessage) (st : State) : State :=
  let st :=
    if truthy (outputTranscription message)
    then emit "" (outputTranscription message) st
    else st in
  if truthy (inputTranscription message)
  then emit (inputTranscription message) "" (set_isInterruptedRef false st)
  else st.

(** [onmessage] (lines 447-469): [queueAudio] is called first and not
    awaited, so its tests see the state before the transcriptions are
    handled and its remainder runs after them. *)
Definition onmessage (now : Q) (message : LiveServerMessage) (st : State) : State :=
  let accepted := queueAudio_accepts st in
  let st := onTranscription message st in
  match inlineData message with
  | Some audio => if accepted then queueAudio_decoded now audio st else st
  | None => st
  end.

(** [0.01 < rms], the test of line 500. *)
Definition loud (inputData : list Q) : bool :=
  negb (Qle_bool (rms inputData) (1 # 100)).

(** [processor.onaudioprocess] (lines 486-509). *)
Definition onaudioprocess (inputData : list Q) (st : State) : State :=
  let st := set_volume (loudness inputData) st in
  if negb (isPlayingRef st) then
    let st :=
      if pendingSpeedUpdateRef st && loud inputData
      then set_pendingSpeedUpdateRef false
             (send (Text (getSystemPromptForSpeed (currentSpeedModeRef st))) st)
      else st in
    send (Media inputData) st
  else st.

(** The events: the callbacks of the session and of the browser, and
    the operations the hook returns.  [now] is [ctx.currentTime] as the
    callback reads it.  A processor that [disconnect] has disconnected
    delivers no more frames. *)
Inductive Event : Type :=
  | Message (now : Q) (message : LiveServerMessage)
  | Ended (id : nat) (now : Q)
  | Interrupt
  | ChangeSpeed (mode : SpeedMode)
  | AudioProcess (inputData : list Q)
  | Disconnect
  | Connect
  | ConnectFailed (message : string) (haveStream : bool)
  | Close
  | Error.

Definition step (st : State) (ev : Event) : State :=
  match ev with
  | Message now message => onmessage now message st
  | Ended id now => onended id now st
  | Interrupt => interrupt st
  | ChangeSpeed mode => changeSpeed mode st
  | AudioProcess inputData => if processorRef st then onaudioprocess inputData st else st
  | Disconnect => disconnect st
  | Connect => connect st
  | ConnectFailed message haveStream => connect_failed message haveStream st
  | Close => onclose st
  | Error => onerror st
  end.

Definition run (st : State) (events : list Event) : State :=
  fold_left step events st.

(** The hook as [useState] and [useRef] initialise it. *)
Definition initial : State :=
  {| turnState := USER_SPEAKING; connectionState := DISCONNECTED; errorMessage := None;
     volume := 0; currentSpeedModeRef := normal; pendingSpeedUpdateRef := false;
     audioContextsRef := false; streamRef := false; processorRef := false;
     audioQueueRef := []; isPlayingRef := false; currentSourceRef := None;
     nextStartTimeRef := 0; isInterruptedRef := false; sessionRef := false;
     started := []; stopped := ∅; emitted := []; sent := [] |}.

(** The hook once [connect] has returned. *)
Definition connected : State :=
  {| turnState := USER_SPEAKING; connectionState := CONNECTED; errorMessage := None;
     volume := 0; currentSpeedModeRef := normal; pendingSpeedUpdateRef := false;
     audioContextsRef := true; streamRef := true; processorRef := true;
     audioQueueRef := []; isPlayingRef := false; currentSourceRef := None;
     nextStartTimeRef := 0; isInterruptedRef := false; sessionRef := true;
     started := []; stopped := ∅; emitted := []; sent := [] |}.

(** The user interrupts the tutor. *)
Definition interrupts (ev : Event) : bool :=
  match ev with
  | Interrupt => true
  | _ => false
  end.

Definition nonnegDuration (ev : Event) : Prop :=
  match ev with
  | Message _ message => 0 <= audioDuration message
  | _ => True
  end.

(** The event carries no transcription of the user's speech. *)
Definition noUserSpeech (ev : Event) : Prop :=
  match ev with
  | Message _ message => truthy (inputTranscription message) = false
  | _ => True
  end.

(** The durations of the chunks that the events hand to [queueAudio]. *)
(** The session goes on: the user does not interrupt, and the
    connection is neither closed nor opened anew. *)
Definition ongoing (ev : Event) : Prop :=
  match ev with
  | Message _ _ | Ended _ _ | ChangeSpeed _ | AudioProcess _ => True
  | _ => False
  end.

(** The connection is not opened anew. *)
Definition noConnect (ev : Event) : Prop :=
  match ev with
  | Connect => False
  | _ => True
  end.

(** Everything but the two events that end a playback: the [ended]
    event of a source and the user's interruption. *)
Definition passive (ev : Event) : Prop :=
  match ev with
  | Ended _ _ | Interrupt => False
  | _ => True
  end.

(** The reading of the output clock that comes with an event. *)
Definition clock (ev : Event) : option Q :=
  match ev with
  | Message now _ | Ended _ now => Some now
  | _ => None
  end.

Definition chunkDurations (events : list Event) : list Q :=
  flat_map
    (fun ev =>
       match ev with
       | Message _ message =>
           match inlineData message with
           | Some (Decoded duration) => [duration]
           | _ => []
           end
       | _ => []
       end) events.

End Turns.

(** ** Properties of a list of scheduled sources *)

(** Each source starts at the instant the one before it ends. *)
Definition gapless (l : list Source) : Prop :=
  forall (i : nat) (a b : Source),
    l !! i = Some a -> l !! S i = Some b -> src_start b == src_end a.

(** No source starts before an earlier one has ended. *)
Definition no_overlap (l : list Source) : Prop :=
  forall (i j : nat) (a b : Source),
    (i < j)%nat -> l !! i = Some a -> l !! j = Some b ->
    src_end a <= src_start b.

(** [scheduled_from cursor rate reqs l]: the sources [l] are what the
    requests [reqs] (clock reading, duration) give when each one starts
    at [Math.max(cursor, now)] with playback rate [rate] and moves the
    cursor to its end. *)
Fixpoint scheduled_from (cursor rate : Q) (reqs : list (Q * Q)) (l : list Source) : Prop :=
  match reqs, l with
  | [], [] => True
  | (now, duration) :: reqs', s :: l' =>
      src_start s == Math_max cursor now /\ src_duration s = duration /\
      src_rate s = rate /\ scheduled_from (src_start s + duration / rate) rate reqs' l'
  | _, _ => False
  end.

(** Between consecutive sources of a schedule: the later one starts at
    the end of the earlier one when its chunk arrived by then, and at
    the arrival of its chunk otherwise. *)
Definition gaps_closed (reqs : list (Q * Q)) (l : list Source) : Prop :=
  forall (i : nat) (a b : Source) (r : Q * Q),
    l !! i = Some a -> l !! S i = Some b -> reqs !! S i = Some r ->
    (fst r <= src_end a -> src_start b == src_end a) /\
    (src_end a < fst r -> src_start b == fst r).

(** * Scheduling facts *)

Lemma Math_max_spec (a b : Q) :
  (a <= b /\ Math_max a b = b) \/ (b < a /\ Math_max a b = a).
Proof.
  unfold Math_max. destruct (Qle_bool a b) eqn:E.
  - left. split; [by apply Qle_bool_iff | done].
  - right. split; [| done]. apply Qnot_le_lt. intros H.
    apply Qle_bool_iff in H. congruence.
Qed.

Lemma Math_max_proper (a a' b : Q) : a == a' -> Math_max a b == Math_max a' b.
Proof.
  intros H. destruct (Math_max_spec a b) as [[? ->]|[? ->]];
    destruct (Math_max_spec a' b) as [[? ->]|[? ->]]; lra.
Qed.

Lemma Math_max_ge_l (a b : Q) : a <= Math_max a b.
Proof. destruct (Math_max_spec a b) as [[? ->]|[? ->]]; lra. Qed.

Lemma Math_max_ge_r (a b : Q) : b <= Math_max a b.
Proof. destruct (Math_max_spec a b) as [[? ->]|[? ->]]; lra. Qed.

Lemma scheduled_from_proper (rate : Q) (reqs : list (Q * Q)) :
  forall (l : list Source) (t t' : Q),
    t == t' -> scheduled_from t rate reqs l -> scheduled_from t' rate reqs l.
Proof.
  destruct reqs as [|[now d] reqs]; intros [|s l] t t' Ht; simpl; try done.
  intros (Hs & Hd & Hr & Hrest). repeat split; try done.
  rewrite Hs. by apply Math_max_proper.
Qed.

Lemma occupancy_nonneg (s : Source) :
  0 <= src_duration s -> 0 < src_rate s -> 0 <= occupancy s.
Proof.
  intros Hd Hr. unfold occupancy, Qdiv.
  apply Qmult_le_0_compat; [done |]. apply Qlt_le_weak, Qinv_lt_0_compat, Hr.
Qed.

(** Every source of a schedule starts at or after the cursor it was
    scheduled from. *)
Lemma scheduled_from_lower (rate : Q) (reqs : list (Q * Q)) :
  0 < rate -> Forall (fun r => 0 <= snd r) reqs ->
  forall (l : list Source) (t : Q), scheduled_from t rate reqs l ->
  forall (j : nat) (b : Source), l !! j = Some b -> t <= src_start b.
Proof.
  intros Hrate Hreqs. induction Hreqs as [|[now d] reqs Hd _ IH];
    intros [|s l] t Hl j b Hb; simpl in *; try done.
  destruct Hl as (Hs & Hdur & Hr & Hrest). destruct j as [|j]; simpl in Hb.
  - inversion Hb; subst b. rewrite Hs. apply Math_max_ge_l.
  - specialize (IH _ _ Hrest _ _ Hb).
    assert (0 <= d / rate).
    { apply Qmult_le_0_compat; [done |]. by apply Qlt_le_weak, Qinv_lt_0_compat. }
    pose proof (Math_max_ge_l t now). lra.
Qed.

Lemma scheduled_from_no_overlap (rate : Q) (reqs : list (Q * Q)) :
  0 < rate -> Forall (fun r => 0 <= snd r) reqs ->
  forall (l : list Source) (t : Q), scheduled_from t rate reqs l -> no_overlap l.
Proof.
  intros Hrate Hreqs. induction Hreqs as [|[now d] reqs Hd Hreqs IH];
    intros [|s l] t Hl; simpl in *; try (exfalso; assumption).
  - intros i j a b _ Ha. by destruct i.
  - destruct Hl as (Hs & Hdur & Hr & Hrest).
    intros i j a b Hij Ha Hb. destruct j as [|j]; [lia |]. simpl in Hb.
    destruct i as [|i]; simpl in Ha.
    + inversion Ha; subst a.
      pose proof (scheduled_from_lower rate reqs Hrate Hreqs _ _ Hrest _ _ Hb).
      unfold src_end, occupancy. rewrite Hdur, Hr. done.
    + eapply (IH _ _ Hrest i j); [lia | done | done].
Qed.

Lemma scheduled_from_gaps (rate : Q) (reqs : list (Q * Q)) :
  forall (l : list Source) (t : Q), scheduled_from t rate reqs l -> gaps_closed reqs l.
Proof.
  induction reqs as [|[now d] reqs IH]; intros [|s l] t Hl; simpl in *;
    try (exfalso; assumption).
  - intros i a b r Ha. by destruct i.
  - destruct Hl as (Hs & Hdur & Hr & Hrest).
    intros i a b r Ha Hb Hreq. destruct i as [|i]; simpl in *.
    + inversion Ha; subst a. destruct reqs as [|[now' d'] reqs]; [done |].
      destruct l as [|s' l]; [done |]. simpl in *.
      inversion Hb; subst b. inversion Hreq; subst r. simpl.
      destruct Hrest as (Hs' & _). unfold src_end, occupancy. rewrite Hdur, Hr.
      destruct (Math_max_spec (src_start s + d / rate) now') as [[? E]|[? E]];
        rewrite E in Hs'; split; intros; lra.
    + by eapply (IH _ _ Hrest i).
Qed.

(** * Running the callbacks *)

Lemma size_is_0_true (s : gset nat) : size_is_0 s = true <-> s = ∅.
Proof.
  unfold size_is_0. rewrite Nat.eqb_eq, size_empty_iff. by unfold_leibniz.
Qed.

Lemma size_is_0_false (s : gset nat) : size_is_0 s = false <-> s <> ∅.
Proof.
  rewrite <- size_is_0_true. destruct (size_is_0 s); split; congruence.
Qed.

Ltac branch_free b :=
  lazymatch b with
  | context [if _ then _ else _] => fail
  | context [match _ with _ => _ end] => fail
  | _ => idtac
  end.

(** Run a callback on a state given by its fields: unfold the calls
    whose state is known, and split on the tests that are ready. *)
Ltac not_a_state x :=
  lazymatch type of x with
  | Control.State => fail
  | Mute.State => fail
  | Speed.State => fail
  | Turns.State => fail
  | _ => idtac
  end.

Ltac exec_with norm call :=
  repeat (norm; first
    [ match goal with
      | H : size_is_0 _ = true |- _ => apply size_is_0_true in H
      | H : size_is_0 _ = false |- _ => apply size_is_0_false in H
      | |- context [size_is_0 ?s] => branch_free s; destruct (size_is_0 s) eqn:?
      | |- context [if ?b then _ else _] => branch_free b; destruct b eqn:?
      | |- context [match ?x with _ => _ end] =>
          branch_free x; not_a_state x; destruct x eqn:?
      end
    | call ]); norm.

Ltac control_known st :=
  lazymatch st with Control.Build_State _ _ _ _ _ _ _ _ _ _ _ _ _ _ _ _ _ _ => idtac end.

(** Projections, setters and the tests on booleans. *)
Ltac control_norm :=
  cbv beta iota zeta delta
    [Control.connectionState Control.isMuted Control.isPlaying Control.volume
    Control.isMuted_captured Control.outputAudioContextRef
    Control.outputNodeRef Control.streamRef Control.nextStartTimeRef
    Control.activeSourcesRef Control.processingModelTurnRef
    Control.ignoringNextTurnRef Control.sessionPromiseRef Control.started
    Control.stopped Control.ended Control.emitted Control.sent
    Control.set_connectionState Control.set_isMuted Control.set_isPlaying
    Control.set_volume Control.set_isMuted_captured
    Control.set_outputAudioContextRef Control.set_outputNodeRef
    Control.set_streamRef Control.set_nextStartTimeRef
    Control.set_activeSourcesRef Control.set_processingModelTurnRef
    Control.set_ignoringNextTurnRef Control.set_sessionPromiseRef
    Control.set_started Control.set_stopped Control.set_ended
    Control.set_emitted Control.set_sent Control.step turnComplete
    interrupted outputTranscription inputTranscription inlineData negb andb
    orb].

(** Unfold one callback whose state argument is known. *)
Ltac control_call :=
  match goal with
  | |- context [Control.setMediaMute ?a0 ?st] =>
      control_known st; let x := fresh in
      set (x := Control.setMediaMute a0 st);
      cbv beta iota zeta delta [Control.setMediaMute] in x; subst x
  | |- context [Control.stopAudioPlayback ?a0 ?st] =>
      control_known st; let x := fresh in
      set (x := Control.stopAudioPlayback a0 st);
      cbv beta iota zeta delta [Control.stopAudioPlayback] in x; subst x
  | |- context [Control.send ?a0 ?st] =>
      control_known st; let x := fresh in
      set (x := Control.send a0 st);
      cbv beta iota zeta delta [Control.send] in x; subst x
  | |- context [Control.sendTextMessage ?a0 ?st] =>
      control_known st; let x := fresh in
      set (x := Control.sendTextMessage a0 st);
      cbv beta iota zeta delta [Control.sendTextMessage] in x; subst x
  | |- context [Control.sendControlMessage ?a0 ?st] =>
      control_known st; let x := fresh in
      set (x := Control.sendControlMessage a0 st);
      cbv beta iota zeta delta [Control.sendControlMessage] in x; subst x
  | |- context [Control.cleanup ?st] =>
      control_known st; let x := fresh in
      set (x := Control.cleanup st);
      cbv beta iota zeta delta [Control.cleanup] in x; subst x
  | |- context [Control.connect ?st] =>
      control_known st; let x := fresh in
      set (x := Control.connect st);
      cbv beta iota zeta delta [Control.connect] in x; subst x
  | |- context [Control.onclose ?st] =>
      control_known st; let x := fresh in
      set (x := Control.onclose st);
      cbv beta iota zeta delta [Control.onclose] in x; subst x
  | |- context [Control.onaudioprocess ?a0 ?st] =>
      control_known st; let x := fresh in
      set (x := Control.onaudioprocess a0 st);
      cbv beta iota zeta delta [Control.onaudioprocess] in x; subst x
  | |- context [Control.onended ?a0 ?st] =>
      control_known st; let x := fresh in
      set (x := Control.onended a0 st);
      cbv beta iota zeta delta [Control.onended] in x; subst x
  | |- context [Control.emit ?a0 ?a1 ?st] =>
      control_known st; let x := fresh in
      set (x := Control.emit a0 a1 st);
      cbv beta iota zeta delta [Control.emit] in x; subst x
  | |- context [Control.onTurnComplete ?a0 ?st] =>
      control_known st; let x := fresh in
      set (x := Control.onTurnComplete a0 st);
      cbv beta iota zeta delta [Control.onTurnComplete] in x; subst x
  | |- context [Control.onTranscription ?a0 ?st] =>
      control_known st; let x := fresh in
      set (x := Control.onTranscription a0 st);
      cbv beta iota zeta delta [Control.onTranscription] in x; subst x
  | |- context [Control.beforeDecode ?a0 ?st] =>
      control_known st; let x := fresh in
      set (x := Control.beforeDecode a0 st);
      cbv beta iota zeta delta [Control.beforeDecode] in x; subst x
  | |- context [Control.startSource ?a0 ?st] =>
      control_known st; let x := fresh in
      set (x := Control.startSource a0 st);
      cbv beta iota zeta delta [Control.startSource] in x; subst x
  | |- context [Control.afterAudio ?a0 ?a1 ?st] =>
      control_known st; let x := fresh in
      set (x := Control.afterAudio a0 a1 st);
      cbv beta iota zeta delta [Control.afterAudio] in x; subst x
  | |- context [Control.onmessage ?a0 ?a1 ?st] =>
      control_known st; let x := fresh in
      set (x := Control.onmessage a0 a1 st);
      cbv beta iota zeta delta [Control.onmessage] in x; subst x
  | |- context [Control.toggleMute ?a0 ?st] =>
      control_known st; let x := fresh in
      set (x := Control.toggleMute a0 st);
      cbv beta iota zeta delta [Control.toggleMute] in x; subst x
  end.

Ltac control_exec :=
  exec_with ltac:(idtac; control_norm) ltac:(idtac; control_call).
Ltac control_fields st :=
  destruct st as [? ? ? ? ? ? ? ? ? ? ? ? ? ? ? ? ? ?].


Lemma control_onTranscription_emitted (m : LiveServerMessage) (st : Control.State) :
  exists e, Control.onTranscription m st = Control.set_emitted e st.
Proof.
  control_fields st. unfold Control.onTranscription, Control.emit. control_norm.
  repeat match goal with |- context [if ?b then _ else _] => destruct b end;
    eexists; reflexivity.
Qed.

(** The same, when the transcript is not looked at. *)
Ltac control_skip :=
  match goal with
  | |- context [Control.onTranscription ?m ?st] =>
      control_known st;
      let e := fresh "e" in
      destruct (control_onTranscription_emitted m st) as [e ->]
  end.
Ltac control_exec' :=
  exec_with ltac:(idtac; control_norm) ltac:(idtac; first [control_skip | control_call]).

Ltac control_event ev :=
  destruct ev as [now [tc int out inp [[d|]|]] | id | now | text | text | frame | | |].


(** *** Invariant of the connected hook *)

Definition control_inv (st : Control.State) : Prop :=
  Control.isMuted_captured st = false /\
  (forall s : Source, s ∈ Control.started st ->
     src_id s ∈ Control.activeSourcesRef st ∪ Control.stopped st ∪ Control.ended st).

Lemma control_inv_step (st : Control.State) (ev : Control.Event) :
  control_inv st -> control_inv (Control.step st ev).
Proof.
  unfold control_inv. control_event ev; control_fields st; control_norm;
    intros (-> & Hgraph); control_exec';
    (split; [done |]);
    intros s Hs; try apply elem_of_app in Hs as [Hs|Hs];
    try specialize (Hgraph s Hs);
    try match goal with id : nat |- _ => destruct (decide (src_id s = id)) end;
    set_solver.
Qed.

Lemma control_inv_run (events : list Control.Event) :
  forall st : Control.State, control_inv st -> control_inv (Control.run st events).
Proof.
  induction events as [|ev events IH]; intros st Hst; [done |].
  apply (IH (Control.step st ev)), control_inv_step, Hst.
Qed.

(** [connected] is what [connect] makes of the hook as it is mounted. *)
Lemma control_connect_initial : Control.connect Control.initial = Control.connected.
Proof. reflexivity. Qed.

Lemma control_inv_connected : control_inv Control.connected.
Proof. split; cbn; [done | set_solver]. Qed.

(** Within one session the playback set and an enabled microphone
    exclude each other.  [connect] does not keep this: it enables the
    track of the new stream and leaves the playback set as it is. *)
Definition control_gate_inv (st : Control.State) : Prop :=
  Control.activeSourcesRef st <> ∅ -> Control.streamRef st <> Some true.

Lemma control_gate_step (st : Control.State) (ev : Control.Event) :
  Control.sameSession ev -> Control.isMuted_captured st = false ->
  control_gate_inv st -> control_gate_inv (Control.step st ev).
Proof.
  unfold control_gate_inv. control_event ev; cbn [Control.sameSession]; try done;
    intros _; control_fields st; control_norm;
    intros -> Hmic; control_exec'; try done; set_solver.
Qed.

Lemma control_gate_run (events : list Control.Event) :
  forall st : Control.State,
    Forall Control.sameSession events -> control_inv st ->
    control_gate_inv st -> control_gate_inv (Control.run st events).
Proof.
  induction events as [|ev events IH]; intros st Hev Hst Hgate; [done |].
  inversion Hev as [|? ? Hev1 Hrest]; subst.
  apply (IH (Control.step st ev) Hrest).
  - by apply control_inv_step.
  - apply control_gate_step; [done | apply Hst | done].
Qed.

(** *** Muting and the end of a reply *)



(** *** Control messages *)

Lemma control_pending_step (st : Control.State) (ev : Control.Event) :
  Control.ignoringNextTurnRef st = true -> Control.keepsPending ev ->
  Control.ignoringNextTurnRef (Control.step st ev) = true /\
  Control.emitted (Control.step st ev) = Control.emitted st /\
  Control.started (Control.step st ev) = Control.started st.
Proof.
  intros Hign Hev.
  control_event ev; cbn in Hev; try done; subst; control_fields st;
    cbn in Hign; subst; control_exec; done.
Qed.

Lemma control_ignoring_onmessage (st : Control.State) (now : Q) (m : LiveServerMessage) :
  Control.ignoringNextTurnRef (Control.onmessage now m st) =
    Control.ignoringNextTurnRef st && negb (turnComplete m) /\
  (Control.ignoringNextTurnRef (Control.onmessage now m st) = true ->
   Control.emitted (Control.onmessage now m st) = Control.emitted st /\
   Control.started (Control.onmessage now m st) = Control.started st).
Proof.
  destruct m as [tc int out inp [[d|]|]]; control_fields st;
    control_exec; (split; [done |]); done.
Qed.

(** *** The time cursor *)

Lemma control_cursor_step (st : Control.State) (ev : Control.Event) :
  Control.flushes ev = false -> Control.nonnegDuration ev ->
  Control.nextStartTimeRef st <= Control.nextStartTimeRef (Control.step st ev).
Proof.
  intros Hev Hd.
  control_event ev; cbn in Hev, Hd; try discriminate Hev; subst; control_fields st;
    control_exec';
    try match goal with
        | |- context [Math_max ?a ?b] => pose proof (Math_max_ge_l a b)
        end; lra.
Qed.

Lemma control_start_after_now (st : Control.State) (now : Q) (m : LiveServerMessage) (s : Source) :
  s ∈ Control.started (Control.onmessage now m st) ->
  s ∈ Control.started st \/ now <= src_start s.
Proof.
  destruct m as [tc int out inp [[d|]|]]; control_fields st;
    control_exec'; intros Hs;
    first [ by left
          | apply elem_of_app in Hs as [Hs | ->%list_elem_of_singleton];
            [by left | right; cbn; apply Math_max_ge_r] ].
Qed.

Ltac mute_known st :=
  lazymatch st with Mute.Build_State _ _ _ _ _ _ _ _ _ _ _ _ _ _ _ => idtac end.

(** Projections, setters and the tests on booleans. *)
Ltac mute_norm :=
  cbv beta iota zeta delta
    [Mute.connectionState Mute.isMuted Mute.volume Mute.outputAudioContextRef
    Mute.outputNodeRef Mute.streamRef Mute.nextStartTimeRef
    Mute.activeSourcesRef Mute.processingModelTurnRef Mute.sessionPromiseRef
    Mute.started Mute.stopped Mute.ended Mute.emitted Mute.sent
    Mute.set_connectionState Mute.set_isMuted Mute.set_volume
    Mute.set_outputAudioContextRef Mute.set_outputNodeRef Mute.set_streamRef
    Mute.set_nextStartTimeRef Mute.set_activeSourcesRef
    Mute.set_processingModelTurnRef Mute.set_sessionPromiseRef
    Mute.set_started Mute.set_stopped Mute.set_ended Mute.set_emitted
    Mute.set_sent Mute.step turnComplete interrupted outputTranscription
    inputTranscription inlineData negb andb orb].

(** Unfold one callback whose state argument is known. *)
Ltac mute_call :=
  match goal with
  | |- context [Mute.setMediaMute ?a0 ?st] =>
      mute_known st; let x := fresh in
      set (x := Mute.setMediaMute a0 st);
      cbv beta iota zeta delta [Mute.setMediaMute] in x; subst x
  | |- context [Mute.stopAudioPlayback ?a0 ?st] =>
      mute_known st; let x := fresh in
      set (x := Mute.stopAudioPlayback a0 st);
      cbv beta iota zeta delta [Mute.stopAudioPlayback] in x; subst x
  | |- context [Mute.send ?a0 ?st] =>
      mute_known st; let x := fresh in
      set (x := Mute.send a0 st);
      cbv beta iota zeta delta [Mute.send] in x; subst x
  | |- context [Mute.sendTextMessage ?a0 ?st] =>
      mute_known st; let x := fresh in
      set (x := Mute.sendTextMessage a0 st);
      cbv beta iota zeta delta [Mute.sendTextMessage] in x; subst x
  | |- context [Mute.cleanup ?st] =>
      mute_known st; let x := fresh in
      set (x := Mute.cleanup st);
      cbv beta iota zeta delta [Mute.cleanup] in x; subst x
  | |- context [Mute.connect ?st] =>
      mute_known st; let x := fresh in
      set (x := Mute.connect st);
      cbv beta iota zeta delta [Mute.connect] in x; subst x
  | |- context [Mute.onclose ?st] =>
      mute_known st; let x := fresh in
      set (x := Mute.onclose st);
      cbv beta iota zeta delta [Mute.onclose] in x; subst x
  | |- context [Mute.onaudioprocess ?a0 ?st] =>
      mute_known st; let x := fresh in
      set (x := Mute.onaudioprocess a0 st);
      cbv beta iota zeta delta [Mute.onaudioprocess] in x; subst x
  | |- context [Mute.onended ?a0 ?st] =>
      mute_known st; let x := fresh in
      set (x := Mute.onended a0 st);
      cbv beta iota zeta delta [Mute.onended] in x; subst x
  | |- context [Mute.emit ?a0 ?a1 ?st] =>
      mute_known st; let x := fresh in
      set (x := Mute.emit a0 a1 st);
      cbv beta iota zeta delta [Mute.emit] in x; subst x
  | |- context [Mute.onTurnComplete ?a0 ?st] =>
      mute_known st; let x := fresh in
      set (x := Mute.onTurnComplete a0 st);
      cbv beta iota zeta delta [Mute.onTurnComplete] in x; subst x
  | |- context [Mute.onTranscription ?a0 ?st] =>
      mute_known st; let x := fresh in
      set (x := Mute.onTranscription a0 st);
      cbv beta iota zeta delta [Mute.onTranscription] in x; subst x
  | |- context [Mute.beforeDecode ?a0 ?st] =>
      mute_known st; let x := fresh in
      set (x := Mute.beforeDecode a0 st);
      cbv beta iota zeta delta [Mute.beforeDecode] in x; subst x
  | |- context [Mute.startSource ?a0 ?st] =>
      mute_known st; let x := fresh in
      set (x := Mute.startSource a0 st);
      cbv beta iota zeta delta [Mute.startSource] in x; subst x
  | |- context [Mute.onInterrupted ?a0 ?a1 ?st] =>
      mute_known st; let x := fresh in
      set (x := Mute.onInterrupted a0 a1 st);
      cbv beta iota zeta delta [Mute.onInterrupted] in x; subst x
  | |- context [Mute.onmessage ?a0 ?a1 ?st] =>
      mute_known st; let x := fresh in
      set (x := Mute.onmessage a0 a1 st);
      cbv beta iota zeta delta [Mute.onmessage] in x; subst x
  | |- context [Mute.toggleMute ?a0 ?st] =>
      mute_known st; let x := fresh in
      set (x := Mute.toggleMute a0 st);
      cbv beta iota zeta delta [Mute.toggleMute] in x; subst x
  end.

Ltac mute_exec :=
  exec_with ltac:(idtac; mute_norm) ltac:(idtac; mute_call).
Ltac mute_fields st :=
  destruct st as [? ? ? ? ? ? ? ? ? ? ? ? ? ? ?].


Lemma mute_onTranscription_emitted (m : LiveServerMessage) (st : Mute.State) :
  exists e, Mute.onTranscription m st = Mute.set_emitted e st.
Proof.
  mute_fields st. unfold Mute.onTranscription, Mute.emit. mute_norm.
  repeat match goal with |- context [if ?b then _ else _] => destruct b end;
    eexists; reflexivity.
Qed.

Ltac mute_skip :=
  match goal with
  | |- context [Mute.onTranscription ?m ?st] =>
      mute_known st;
      let e := fresh "e" in
      destruct (mute_onTranscription_emitted m st) as [e ->]
  end.
Ltac mute_exec' :=
  exec_with ltac:(idtac; mute_norm) ltac:(idtac; first [mute_skip | mute_call]).

Ltac mute_event ev :=
  destruct ev as [now [tc int out inp [[d|]|]] | id | now | text | frame | | |].

Definition mute_inv (st : Mute.State) : Prop :=
  (Mute.outputAudioContextRef st = false -> Mute.activeSourcesRef st = ∅) /\
  (forall s : Source, s ∈ Mute.started st ->
     src_id s ∈ Mute.activeSourcesRef st ∪ Mute.stopped st ∪ Mute.ended st).

Lemma mute_inv_step (st : Mute.State) (ev : Mute.Event) :
  mute_inv st -> mute_inv (Mute.step st ev).
Proof.
  unfold mute_inv. mute_event ev; mute_fields st; mute_norm;
    intros (Hctx & Hgraph); mute_exec';
    (split; [try done; set_solver |]);
    intros s Hs; try apply elem_of_app in Hs as [Hs|Hs];
    try specialize (Hgraph s Hs);
    try match goal with id : nat |- _ => destruct (decide (src_id s = id)) end;
    set_solver.
Qed.

Lemma mute_inv_run (events : list Mute.Event) :
  forall st : Mute.State, mute_inv st -> mute_inv (Mute.run st events).
Proof.
  induction events as [|ev events IH]; intros st Hst; [done |].
  apply (IH (Mute.step st ev)), mute_inv_step, Hst.
Qed.

Lemma mute_connect_initial : Mute.connect Mute.initial = Mute.connected.
Proof. reflexivity. Qed.

Lemma mute_inv_connected : mute_inv Mute.connected.
Proof. unfold mute_inv. cbn. split; [done | set_solver]. Qed.

Definition mute_gate_inv (st : Mute.State) : Prop :=
  Mute.activeSourcesRef st <> ∅ -> Mute.streamRef st <> Some true.

Lemma mute_gate_step (st : Mute.State) (ev : Mute.Event) :
  Mute.sameSession ev -> mute_inv st ->
  mute_gate_inv st -> mute_gate_inv (Mute.step st ev).
Proof.
  unfold mute_inv, mute_gate_inv. mute_event ev; cbn [Mute.sameSession]; try done;
    intros _; mute_fields st; mute_norm;
    intros (Hctx & _) Hmic; mute_exec'; try done; set_solver.
Qed.

Lemma mute_gate_run (events : list Mute.Event) :
  forall st : Mute.State,
    Forall Mute.sameSession events -> mute_inv st ->
    mute_gate_inv st -> mute_gate_inv (Mute.run st events).
Proof.
  induction events as [|ev events IH]; intros st Hev Hst Hgate; [done |].
  inversion Hev as [|? ? Hev1 Hrest]; subst.
  apply (IH (Mute.step st ev) Hrest).
  - by apply mute_inv_step.
  - by apply mute_gate_step.
Qed.



Ltac speed_known st :=
  lazymatch st with Speed.Build_State _ _ _ _ _ _ _ _ _ _ _ _ _ _ => idtac end.

(** Projections, setters and the tests on booleans. *)
Ltac speed_norm :=
  cbv beta iota zeta delta
    [Speed.connectionState Speed.volume Speed.audioSpeedRef
    Speed.outputAudioContextRef Speed.outputNodeRef Speed.streamRef
    Speed.nextStartTimeRef Speed.activeSourcesRef Speed.sessionPromiseRef
    Speed.started Speed.stopped Speed.ended Speed.emitted Speed.sent
    Speed.set_connectionState Speed.set_volume Speed.set_audioSpeedRef
    Speed.set_outputAudioContextRef Speed.set_outputNodeRef
    Speed.set_streamRef Speed.set_nextStartTimeRef Speed.set_activeSourcesRef
    Speed.set_sessionPromiseRef Speed.set_started Speed.set_stopped
    Speed.set_ended Speed.set_emitted Speed.set_sent Speed.step turnComplete
    interrupted outputTranscription inputTranscription inlineData negb andb
    orb].

(** Unfold one callback whose state argument is known. *)
Ltac speed_call :=
  match goal with
  | |- context [Speed.send ?a0 ?st] =>
      speed_known st; let x := fresh in
      set (x := Speed.send a0 st);
      cbv beta iota zeta delta [Speed.send] in x; subst x
  | |- context [Speed.setAudioSpeed ?a0 ?st] =>
      speed_known st; let x := fresh in
      set (x := Speed.setAudioSpeed a0 st);
      cbv beta iota zeta delta [Speed.setAudioSpeed] in x; subst x
  | |- context [Speed.cleanup ?st] =>
      speed_known st; let x := fresh in
      set (x := Speed.cleanup st);
      cbv beta iota zeta delta [Speed.cleanup] in x; subst x
  | |- context [Speed.connect ?st] =>
      speed_known st; let x := fresh in
      set (x := Speed.connect st);
      cbv beta iota zeta delta [Speed.connect] in x; subst x
  | |- context [Speed.onclose ?st] =>
      speed_known st; let x := fresh in
      set (x := Speed.onclose st);
      cbv beta iota zeta delta [Speed.onclose] in x; subst x
  | |- context [Speed.onaudioprocess ?a0 ?st] =>
      speed_known st; let x := fresh in
      set (x := Speed.onaudioprocess a0 st);
      cbv beta iota zeta delta [Speed.onaudioprocess] in x; subst x
  | |- context [Speed.onended ?a0 ?st] =>
      speed_known st; let x := fresh in
      set (x := Speed.onended a0 st);
      cbv beta iota zeta delta [Speed.onended] in x; subst x
  | |- context [Speed.emit ?a0 ?a1 ?st] =>
      speed_known st; let x := fresh in
      set (x := Speed.emit a0 a1 st);
      cbv beta iota zeta delta [Speed.emit] in x; subst x
  | |- context [Speed.onTranscription ?a0 ?st] =>
      speed_known st; let x := fresh in
      set (x := Speed.onTranscription a0 st);
      cbv beta iota zeta delta [Speed.onTranscription] in x; subst x
  | |- context [Speed.beforeDecode ?a0 ?st] =>
      speed_known st; let x := fresh in
      set (x := Speed.beforeDecode a0 st);
      cbv beta iota zeta delta [Speed.beforeDecode] in x; subst x
  | |- context [Speed.startSource ?a0 ?st] =>
      speed_known st; let x := fresh in
      set (x := Speed.startSource a0 st);
      cbv beta iota zeta delta [Speed.startSource] in x; subst x
  | |- context [Speed.onInterrupted ?a0 ?st] =>
      speed_known st; let x := fresh in
      set (x := Speed.onInterrupted a0 st);
      cbv beta iota zeta delta [Speed.onInterrupted] in x; subst x
  | |- context [Speed.onmessage ?a0 ?a1 ?st] =>
      speed_known st; let x := fresh in
      set (x := Speed.onmessage a0 a1 st);
      cbv beta iota zeta delta [Speed.onmessage] in x; subst x
  end.

Ltac speed_exec :=
  exec_with ltac:(idtac; speed_norm) ltac:(idtac; speed_call).
Ltac speed_fields st :=
  destruct st as [? ? ? ? ? ? ? ? ? ? ? ? ? ?].


Ltac speed_event ev :=
  destruct ev as [now [tc int out inp [[d|]|]] | id | frame | speed | | |].

Definition speed_inv (st : Speed.State) : Prop :=
  forall s : Source, s ∈ Speed.started st ->
    src_id s ∈ Speed.activeSourcesRef st ∪ Speed.stopped st ∪ Speed.ended st.

Lemma speed_inv_step (st : Speed.State) (ev : Speed.Event) :
  speed_inv st -> speed_inv (Speed.step st ev).
Proof.
  unfold speed_inv. speed_event ev; speed_fields st; speed_norm;
    intros Hgraph; speed_exec;
    intros s Hs; try apply elem_of_app in Hs as [Hs|Hs];
    try specialize (Hgraph s Hs);
    try match goal with id : nat |- _ => destruct (decide (src_id s = id)) end;
    set_solver.
Qed.

Lemma speed_inv_run (events : list Speed.Event) :
  forall st : Speed.State, speed_inv st -> speed_inv (Speed.run st events).
Proof.
  induction events as [|ev events IH]; intros st Hst; [done |].
  apply (IH (Speed.step st ev)), speed_inv_step, Hst.
Qed.

Lemma speed_connect_initial : Speed.connect Speed.initial = Speed.connected.
Proof. reflexivity. Qed.

Lemma speed_inv_connected : speed_inv Speed.connected.
Proof. unfold speed_inv. cbn. set_solver. Qed.

Lemma speed_cursor_step (st : Speed.State) (ev : Speed.Event) :
  Speed.flushes ev = false -> Speed.nonnegDuration ev -> 0 < Speed.audioSpeedRef st ->
  Speed.nextStartTimeRef st <= Speed.nextStartTimeRef (Speed.step st ev).
Proof.
  intros Hev Hd Hrate.
  speed_event ev; cbn in Hev, Hd; try discriminate Hev; subst; speed_fields st;
    cbn in Hrate; speed_exec;
    try match goal with
        | |- context [Math_max ?a ?b] => pose proof (Math_max_ge_l a b)
        end;
    try match goal with
        | |- context [?x / ?y] =>
            assert (0 <= x / y)
              by (apply Qmult_le_0_compat; [done | by apply Qlt_le_weak, Qinv_lt_0_compat])
        end; lra.
Qed.

Lemma speed_start_after_now (st : Speed.State) (now : Q) (m : LiveServerMessage) (s : Source) :
  s ∈ Speed.started (Speed.onmessage now m st) ->
  s ∈ Speed.started st \/ now <= src_start s.
Proof.
  destruct m as [tc int out inp [[d|]|]]; speed_fields st;
    speed_exec; intros Hs;
    first [ by left
          | apply elem_of_app in Hs as [Hs | ->%list_elem_of_singleton];
            [by left | right; cbn; apply Math_max_ge_r] ].
Qed.

(** The log of started sources only grows. *)
Lemma speed_started_step (st : Speed.State) (ev : Speed.Event) :
  exists new, Speed.started (Speed.step st ev) = Speed.started st ++ new.
Proof.
  speed_event ev; speed_fields st; speed_exec;
    first [ by eexists | exists []; by rewrite app_nil_r ].
Qed.

(** * Gapless scheduling *)

Lemma control_onmessage_chunk (st : Control.State) (now d : Q) :
  Control.outputReady st -> Control.ignoringNextTurnRef st = false ->
  let st' := Control.onmessage now (chunk d) st in
  Control.started st' =
    Control.started st ++
      [{| src_id := length (Control.started st);
          src_start := Math_max (Control.nextStartTimeRef st) now;
          src_duration := d; src_rate := 1 |}] /\
  Control.nextStartTimeRef st' = Math_max (Control.nextStartTimeRef st) now + d /\
  Control.outputReady st' /\ Control.ignoringNextTurnRef st' = false.
Proof.
  destruct st as [? ? ? ? cap ? ? str ? ? ? ? ? ? ? ? ? ?].
  unfold Control.outputReady. simpl. intros [-> ->] ->.
  destruct cap, str; simpl; done.
Qed.

Lemma control_run_chunks (reqs : list (Q * Q)) :
  forall st : Control.State,
    Control.outputReady st -> Control.ignoringNextTurnRef st = false ->
    exists new : list Source,
      Control.started (Control.run st (Control.chunks reqs)) = Control.started st ++ new /\
      scheduled_from (Control.nextStartTimeRef st) 1 reqs new.
Proof.
  induction reqs as [|[now d] reqs IH]; intros st Hout Hign.
  - exists []. simpl. by rewrite app_nil_r.
  - destruct (control_onmessage_chunk st now d Hout Hign) as (Hs & Hc & Hout' & Hign').
    destruct (IH _ Hout' Hign') as (new & Hnew & Hsched).
    eexists (_ :: new). split.
    + change (Control.run st (Control.chunks ((now, d) :: reqs)))
        with (Control.run (Control.onmessage now (chunk d) st) (Control.chunks reqs)).
      rewrite Hnew, Hs. by rewrite <- app_assoc.
    + simpl. repeat split; try reflexivity.
      eapply scheduled_from_proper; [| exact Hsched]. rewrite Hc. simpl. field.
Qed.

Lemma speed_onmessage_chunk (st : Speed.State) (now d : Q) :
  Speed.outputReady st ->
  let st' := Speed.onmessage now (chunk d) st in
  Speed.started st' =
    Speed.started st ++
      [{| src_id := length (Speed.started st);
          src_start := Math_max (Speed.nextStartTimeRef st) now;
          src_duration := d; src_rate := Speed.audioSpeedRef st |}] /\
  Speed.nextStartTimeRef st' =
    Math_max (Speed.nextStartTimeRef st) now + d / Speed.audioSpeedRef st /\
  Speed.outputReady st' /\ Speed.audioSpeedRef st' = Speed.audioSpeedRef st.
Proof.
  destruct st. unfold Speed.outputReady. simpl. intros [-> ->]. done.
Qed.

Lemma speed_run_chunks (reqs : list (Q * Q)) :
  forall st : Speed.State,
    Speed.outputReady st ->
    exists new : list Source,
      Speed.started (Speed.run st (Speed.chunks reqs)) = Speed.started st ++ new /\
      scheduled_from (Speed.nextStartTimeRef st) (Speed.audioSpeedRef st) reqs new.
Proof.
  induction reqs as [|[now d] reqs IH]; intros st Hout.
  - exists []. simpl. by rewrite app_nil_r.
  - destruct (speed_onmessage_chunk st now d Hout) as (Hs & Hc & Hout' & Hsp).
    destruct (IH _ Hout') as (new & Hnew & Hsched).
    eexists (_ :: new). split.
    + change (Speed.run st (Speed.chunks ((now, d) :: reqs)))
        with (Speed.run (Speed.onmessage now (chunk d) st) (Speed.chunks reqs)).
      rewrite Hnew, Hs. by rewrite <- app_assoc.
    + simpl. repeat split; try reflexivity.
      rewrite Hsp, Hc in Hsched. exact Hsched.
Qed.

(** C1, amended.  A series of audio chunks handed to [onmessage] is
    scheduled chunk by chunk: each source starts at
    [Math.max(nextStartTimeRef, now)] and moves the cursor to its end,
    [duration] later ([duration / playbackRate] in the speed
    revision).  No two of the sources overlap.  The gap before a source
    is closed when its chunk arrives no later than the end of the source
    before it; a chunk that arrives later starts on arrival. *)
Theorem schedule_of_chunks :
  (forall (st : Control.State) (reqs : list (Q * Q)),
      Control.outputReady st -> Control.ignoringNextTurnRef st = false ->
      Forall (fun r => 0 <= snd r) reqs ->
      exists new : list Source,
        Control.started (Control.run st (Control.chunks reqs)) = Control.started st ++ new /\
        scheduled_from (Control.nextStartTimeRef st) 1 reqs new /\
        no_overlap new /\ gaps_closed reqs new) /\
  (forall (st : Speed.State) (reqs : list (Q * Q)),
      Speed.outputReady st -> 0 < Speed.audioSpeedRef st ->
      Forall (fun r => 0 <= snd r) reqs ->
      exists new : list Source,
        Speed.started (Speed.run st (Speed.chunks reqs)) = Speed.started st ++ new /\
        scheduled_from (Speed.nextStartTimeRef st) (Speed.audioSpeedRef st) reqs new /\
        no_overlap new /\ gaps_closed reqs new).
Proof.
  split.
  - intros st reqs Hout Hign Hreqs.
    destruct (control_run_chunks reqs st Hout Hign) as (new & Hnew & Hsched).
    exists new. split; [done |]. split; [done |]. split.
    + eapply scheduled_from_no_overlap; [| exact Hreqs | exact Hsched]. lra.
    + eapply scheduled_from_gaps; exact Hsched.
  - intros st reqs Hout Hrate Hreqs.
    destruct (speed_run_chunks reqs st Hout) as (new & Hnew & Hsched).
    exists new. split; [done |]. split; [done |]. split.
    + eapply scheduled_from_no_overlap; [exact Hrate | exact Hreqs | exact Hsched].
    + eapply scheduled_from_gaps; exact Hsched.
Qed.

Lemma schedule_of_chunks_witness :
  (exists new : list Source,
      Control.started (Control.run Control.connected (Control.chunks [(0, 1); (5, 1)])) =
        Control.started Control.connected ++ new /\
      scheduled_from (Control.nextStartTimeRef Control.connected) 1 [(0, 1); (5, 1)] new /\
      no_overlap new /\ gaps_closed [(0, 1); (5, 1)] new) /\
  (exists new : list Source,
      Speed.started (Speed.run Speed.connected (Speed.chunks [(0, 1); (5, 1)])) =
        Speed.started Speed.connected ++ new /\
      scheduled_from (Speed.nextStartTimeRef Speed.connected)
        (Speed.audioSpeedRef Speed.connected) [(0, 1); (5, 1)] new /\
      no_overlap new /\ gaps_closed [(0, 1); (5, 1)] new).
Proof.
  split.
  - refine (proj1 schedule_of_chunks Control.connected [(0, 1); (5, 1)] _ _ _).
    + split; reflexivity.
    + reflexivity.
    + repeat constructor; vm_compute; discriminate.
  - refine (proj2 schedule_of_chunks Speed.connected [(0, 1); (5, 1)] _ _ _).
    + split; reflexivity.
    + reflexivity.
    + repeat constructor; vm_compute; discriminate.
Defined.

Lemma schedule_gap_counterexample :
  ~ gapless (Control.started (Control.run Control.connected (Control.chunks [(0, 1); (5, 1)]))).
Proof.
  assert (E : Control.started (Control.run Control.connected (Control.chunks [(0, 1); (5, 1)]))
            = [{| src_id := 0; src_start := 0; src_duration := 1; src_rate := 1 |};
               {| src_id := 1; src_start := 5; src_duration := 1; src_rate := 1 |}])
    by (vm_compute; reflexivity).
  rewrite E. intros H. specialize (H 0%nat _ _ eq_refl eq_refl).
  vm_compute in H. discriminate H.
Qed.

(** * Flush, muting and control messages *)

Lemma audible_nil (started : list Source) (stopped ended : gset nat) :
  (forall s : Source, s ∈ started -> src_id s ∈ stopped ∪ ended) ->
  audible started stopped ended = [].
Proof.
  intros H. unfold audible. induction started as [|s l IH]; [done |].
  rewrite filter_cons. destruct (decide _) as [[Hs He]|_].
  - specialize (H s ltac:(left)). set_solver.
  - apply IH. intros s' Hs'. apply H. by right.
Qed.

Lemma control_run_snoc (st : Control.State) (events : list Control.Event) (ev : Control.Event) :
  Control.run st (events ++ [ev]) = Control.step (Control.run st events) ev.
Proof. unfold Control.run. by rewrite fold_left_app. Qed.

Lemma mute_run_snoc (st : Mute.State) (events : list Mute.Event) (ev : Mute.Event) :
  Mute.run st (events ++ [ev]) = Mute.step (Mute.run st events) ev.
Proof. unfold Mute.run. by rewrite fold_left_app. Qed.

Lemma control_reachable (events : list Control.Event) :
  control_inv (Control.run Control.connected events).
Proof. apply control_inv_run, control_inv_connected. Qed.

Lemma mute_reachable (events : list Mute.Event) :
  mute_inv (Mute.run Mute.connected events).
Proof. apply mute_inv_run, mute_inv_connected. Qed.

Lemma speed_reachable (events : list Speed.Event) :
  speed_inv (Speed.run Speed.connected events).
Proof. apply speed_inv_run, speed_inv_connected. Qed.

(** *** Flush *)

Lemma control_stopAudioPlayback_effect (st : Control.State) (now : Q) :
  let st' := Control.stopAudioPlayback now st in
  Control.activeSourcesRef st' = ∅ /\
  Control.started st' = Control.started st /\
  Control.stopped st' = Control.stopped st ∪ Control.activeSourcesRef st /\
  Control.ended st' = Control.ended st /\
  Control.nextStartTimeRef st' =
    (if Control.outputAudioContextRef st then now else Control.nextStartTimeRef st) /\
  Control.outputAudioContextRef st' = Control.outputAudioContextRef st /\
  Control.outputNodeRef st' = Control.outputNodeRef st /\
  Control.ignoringNextTurnRef st' = Control.ignoringNextTurnRef st.
Proof. control_fields st. control_exec; done. Qed.

Lemma speed_interrupted_effect (st : Speed.State) (now : Q) (m : LiveServerMessage) :
  interrupted m = true -> inlineData m <> Some Undecodable ->
  let st' := Speed.onmessage now m st in
  Speed.activeSourcesRef st' = ∅ /\ Speed.nextStartTimeRef st' = 0 /\
  Speed.outputAudioContextRef st' = Speed.outputAudioContextRef st /\
  Speed.outputNodeRef st' = Speed.outputNodeRef st.
Proof.
  destruct m as [tc int out inp [[d|]|]]; cbn; intros -> Hm; try done;
    speed_fields st; speed_exec; done.
Qed.

Lemma Math_max_r (a b : Q) : a <= b -> Math_max a b = b.
Proof.
  intros H. unfold Math_max. apply Qle_bool_iff in H. by rewrite H.
Qed.

(** C2, amended.  In every state the connected hook reaches,
    [stopAudioPlayback] leaves no active source and no audible one, and
    so does a message flagged [interrupted] in the speed revision.
    [stopAudioPlayback] moves the cursor to the clock reading when the
    output context is there; the speed revision sets it to 0.  Either
    way the next chunk starts at the clock reading of its own
    arrival. *)
Theorem flush_silences_playback :
  (forall (events : list Control.Event) (now : Q),
      let st := Control.run Control.connected events in
      let st' := Control.stopAudioPlayback now st in
      Control.activeSourcesRef st' = ∅ /\
      audible (Control.started st') (Control.stopped st') (Control.ended st') = [] /\
      (Control.outputAudioContextRef st = true ->
       Control.nextStartTimeRef st' = now /\
       forall now' d : Q,
         now <= now' -> Control.outputNodeRef st = true ->
         Control.ignoringNextTurnRef st = false ->
         exists s : Source,
           Control.started (Control.onmessage now' (chunk d) st') = Control.started st' ++ [s] /\
           src_start s = now')) /\
  (forall (events : list Speed.Event) (now : Q) (message : LiveServerMessage),
      interrupted message = true -> inlineData message <> Some Undecodable ->
      let st' := Speed.onmessage now message (Speed.run Speed.connected events) in
      Speed.activeSourcesRef st' = ∅ /\
      audible (Speed.started st') (Speed.stopped st') (Speed.ended st') = [] /\
      Speed.nextStartTimeRef st' = 0 /\
      forall now' d : Q,
        0 <= now' -> Speed.outputReady st' ->
        exists s : Source,
          Speed.started (Speed.onmessage now' (chunk d) st') = Speed.started st' ++ [s] /\
          src_start s = now').
Proof.
  split.
  - intros events now st st'.
    destruct (control_stopAudioPlayback_effect st now)
      as (Hact & Hstarted & Hstopped & Hended & Hcur & Hctx & Hnode & Hign).
    fold st' in Hact, Hstarted, Hstopped, Hended, Hcur, Hctx, Hnode, Hign.
    split; [done |]. split.
    + apply audible_nil. intros s Hs. rewrite Hstarted in Hs.
      destruct (control_reachable events) as (_ & Hgraph).
      specialize (Hgraph s Hs). fold st in Hgraph. rewrite Hstopped, Hended. set_solver.
    + intros Hc. rewrite Hc in Hcur. split; [done |].
      intros now' d Hnow Hn Hi.
      destruct (control_onmessage_chunk st' now' d) as (Hs & _).
      * split; congruence.
      * congruence.
      * eexists. split; [exact Hs |]. cbn [src_start]. rewrite Hcur. by apply Math_max_r.
  - intros events now m Hint Hm st'.
    destruct (speed_interrupted_effect (Speed.run Speed.connected events) now m Hint Hm)
      as (Hact & Hcur & _).
    fold st' in Hact, Hcur. split; [done |]. split; [| split; [done |]].
    + apply audible_nil. intros s Hs.
      pose proof (speed_inv_step _ (Speed.Message now m) (speed_reachable events)) as Hg.
      change (speed_inv st') in Hg. specialize (Hg s Hs). rewrite Hact in Hg. set_solver.
    + intros now' d Hnow Hready.
      destruct (speed_onmessage_chunk st' now' d Hready) as (Hs & _).
      eexists. split; [exact Hs |]. cbn [src_start]. rewrite Hcur. by apply Math_max_r.
Qed.

Lemma flush_silences_playback_witness :
  (let st' := Control.stopAudioPlayback 2 (Control.run Control.connected [Control.Message 0 (chunk 5)]) in
   Control.nextStartTimeRef st' = 2 /\
   forall now' d : Q,
     2 <= now' ->
     Control.outputNodeRef (Control.run Control.connected [Control.Message 0 (chunk 5)]) = true ->
     Control.ignoringNextTurnRef (Control.run Control.connected [Control.Message 0 (chunk 5)]) = false ->
     exists s : Source,
       Control.started (Control.onmessage now' (chunk d) st') = Control.started st' ++ [s] /\
       src_start s = now') /\
  (let st' := Speed.onmessage 2 interruption (Speed.run Speed.connected [Speed.Message 0 (chunk 5)]) in
   Speed.activeSourcesRef st' = ∅ /\
   audible (Speed.started st') (Speed.stopped st') (Speed.ended st') = [] /\
   Speed.nextStartTimeRef st' = 0 /\
   forall now' d : Q,
     0 <= now' -> Speed.outputReady st' ->
     exists s : Source,
       Speed.started (Speed.onmessage now' (chunk d) st') = Speed.started st' ++ [s] /\
       src_start s = now').
Proof.
  split.
  - apply (proj1 flush_silences_playback [Control.Message 0 (chunk 5)] 2). reflexivity.
  - apply (proj2 flush_silences_playback [Speed.Message 0 (chunk 5)] 2 interruption).
    + reflexivity.
    + discriminate.
Defined.

Lemma flush_cursor_counterexample :
  ~ (Speed.nextStartTimeRef
       (Speed.run Speed.connected [Speed.Message 0 (chunk 5); Speed.Message 2 interruption]) == 2).
Proof. vm_compute. discriminate. Qed.

(** *** The cursor between flushes *)

Lemma control_cursor_run (events : list Control.Event) :
  forall st : Control.State,
    Forall (fun ev => Control.flushes ev = false /\ Control.nonnegDuration ev) events ->
    Control.nextStartTimeRef st <= Control.nextStartTimeRef (Control.run st events).
Proof.
  induction events as [|ev events IH]; intros st Hev.
  - cbn. lra.
  - inversion Hev as [|? ? [Hf Hd] Hrest]; subst.
    pose proof (control_cursor_step st ev Hf Hd).
    specialize (IH (Control.step st ev) Hrest). cbn. unfold Control.run in IH. lra.
Qed.

Lemma speed_rate_step (st : Speed.State) (ev : Speed.Event) :
  Speed.positiveSpeed ev -> 0 < Speed.audioSpeedRef st ->
  0 < Speed.audioSpeedRef (Speed.step st ev).
Proof.
  intros Hev Hrate. speed_event ev; cbn in Hev; speed_fields st; cbn in Hrate;
    speed_exec; done.
Qed.

Lemma speed_cursor_run (events : list Speed.Event) :
  forall st : Speed.State,
    0 < Speed.audioSpeedRef st ->
    Forall (fun ev => Speed.flushes ev = false /\ Speed.nonnegDuration ev /\
                      Speed.positiveSpeed ev) events ->
    Speed.nextStartTimeRef st <= Speed.nextStartTimeRef (Speed.run st events).
Proof.
  induction events as [|ev events IH]; intros st Hrate Hev.
  - cbn. lra.
  - inversion Hev as [|? ? (Hf & Hd & Hp) Hrest]; subst.
    pose proof (speed_cursor_step st ev Hf Hd Hrate).
    specialize (IH (Speed.step st ev) (speed_rate_step st ev Hp Hrate) Hrest).
    cbn. unfold Speed.run in IH. lra.
Qed.

(** C3, amended.  Over events that do not flush and whose chunks have
    non-negative durations (and, in the speed revision, with a positive
    speed) the cursor never moves back; a flush may lower it (see
    [cursor_drop_counterexample]).  Every source that a message starts
    begins no earlier than the clock reading of that message. *)
Theorem cursor_grows_between_flushes :
  (forall (st : Control.State) (events : list Control.Event),
      Forall (fun ev => Control.flushes ev = false /\ Control.nonnegDuration ev) events ->
      Control.nextStartTimeRef st <= Control.nextStartTimeRef (Control.run st events)) /\
  (forall (st : Control.State) (now : Q) (message : LiveServerMessage) (s : Source),
      s ∈ Control.started (Control.onmessage now message st) ->
      s ∈ Control.started st \/ now <= src_start s) /\
  (forall (st : Speed.State) (events : list Speed.Event),
      0 < Speed.audioSpeedRef st ->
      Forall (fun ev => Speed.flushes ev = false /\ Speed.nonnegDuration ev /\
                        Speed.positiveSpeed ev) events ->
      Speed.nextStartTimeRef st <= Speed.nextStartTimeRef (Speed.run st events)) /\
  (forall (st : Speed.State) (now : Q) (message : LiveServerMessage) (s : Source),
      s ∈ Speed.started (Speed.onmessage now message st) ->
      s ∈ Speed.started st \/ now <= src_start s).
Proof.
  split; [| split; [| split]].
  - intros st events. apply control_cursor_run.
  - apply control_start_after_now.
  - intros st events. apply speed_cursor_run.
  - apply speed_start_after_now.
Qed.

Lemma cursor_grows_between_flushes_witness :
  (Control.nextStartTimeRef Control.connected <=
   Control.nextStartTimeRef
     (Control.run Control.connected [Control.Message 0 (chunk 1); Control.Ended 0])) /\
  (Speed.nextStartTimeRef Speed.connected <=
   Speed.nextStartTimeRef
     (Speed.run Speed.connected [Speed.Message 0 (chunk 1); Speed.SetAudioSpeed 2])).
Proof.
  split.
  - apply (proj1 cursor_grows_between_flushes).
    repeat constructor; vm_compute; discriminate.
  - apply (proj1 (proj2 (proj2 cursor_grows_between_flushes))).
    + reflexivity.
    + repeat constructor; vm_compute; discriminate.
Defined.

Lemma cursor_drop_counterexample :
  ~ (Control.nextStartTimeRef
       (Control.run Control.connected [Control.Message 0 (chunk 10)]) <=
     Control.nextStartTimeRef
       (Control.run Control.connected
          [Control.Message 0 (chunk 10); Control.Message 1 interruption])).
Proof. vm_compute. intros H. by apply H. Qed.

(** *** The microphone while the tutor speaks *)

Lemma control_toggleMute_speaking (st : Control.State) (now : Q) :
  Control.aiSpeaking st = true ->
  Control.aiSpeaking (Control.toggleMute now st) = false /\
  (Control.streamRef st <> None -> Control.micEnabled (Control.toggleMute now st) = true).
Proof.
  unfold Control.aiSpeaking, Control.micEnabled.
  intros Hai%negb_true_iff%size_is_0_false. control_fields st. cbn in Hai.
  control_exec; try done; rewrite ?size_is_0_true; try done.
Qed.

Lemma control_interrupted_speaking (st : Control.State) (now : Q) (m : LiveServerMessage) :
  interrupted m = true -> Control.reachesInterrupted st m ->
  Control.aiSpeaking (Control.onmessage now m st) = false /\
  (Control.streamRef st <> None -> Control.micEnabled (Control.onmessage now m st) = true).
Proof.
  unfold Control.aiSpeaking, Control.micEnabled, Control.reachesInterrupted.
  destruct m as [tc int out inp [[d|]|]]; cbn [interrupted inlineData turnComplete];
    intros -> Hm; control_fields st; revert Hm; control_norm;
    control_exec'; try done; rewrite ?size_is_0_true; try done;
    intros; try done; naive_solver.
Qed.

Lemma mute_toggleMute_speaking (st : Mute.State) (now : Q) :
  Mute.outputAudioContextRef st = true ->
  Mute.aiSpeaking st = true ->
  Mute.aiSpeaking (Mute.toggleMute now st) = false /\
  (Mute.streamRef st <> None -> Mute.micEnabled (Mute.toggleMute now st) = true).
Proof.
  unfold Mute.aiSpeaking, Mute.micEnabled.
  intros Hctx Hai%negb_true_iff%size_is_0_false. mute_fields st. cbn in Hai, Hctx. subst.
  mute_exec; try done; rewrite ?size_is_0_true; try done.
Qed.

Lemma mute_interrupted_speaking (st : Mute.State) (now : Q) (m : LiveServerMessage) :
  Mute.outputAudioContextRef st = true ->
  interrupted m = true -> Mute.reachesInterrupted st m ->
  Mute.aiSpeaking (Mute.onmessage now m st) = false /\
  (Mute.streamRef st <> None -> Mute.micEnabled (Mute.onmessage now m st) = true).
Proof.
  unfold Mute.aiSpeaking, Mute.micEnabled, Mute.reachesInterrupted.
  destruct m as [tc int out inp [[d|]|]]; cbn [interrupted inlineData turnComplete];
    intros Hctx -> Hm; mute_fields st; cbn in Hctx; subst; revert Hm; mute_norm;
    mute_exec'; try done; rewrite ?size_is_0_true; try done;
    intros; try done; naive_solver.
Qed.

Lemma control_session_gate (events : list Control.Event) :
  Forall Control.sameSession events ->
  control_gate_inv (Control.run Control.connected events).
Proof.
  intros Hev. apply control_gate_run; [done | apply control_inv_connected |].
  intros H. by destruct H.
Qed.

Lemma mute_session_gate (events : list Mute.Event) :
  Forall Mute.sameSession events ->
  mute_gate_inv (Mute.run Mute.connected events).
Proof.
  intros Hev. apply mute_gate_run; [done | apply mute_inv_connected |].
  intros H. by destruct H.
Qed.

Lemma control_speaking_muted (st : Control.State) :
  control_gate_inv st -> Control.aiSpeaking st = true -> Control.micEnabled st = false.
Proof.
  unfold Control.aiSpeaking, Control.micEnabled.
  intros Hmic Hai%negb_true_iff%size_is_0_false.
  specialize (Hmic Hai). by destruct (Control.streamRef st) as [[|]|].
Qed.

Lemma mute_speaking_muted (st : Mute.State) :
  mute_gate_inv st -> Mute.aiSpeaking st = true -> Mute.micEnabled st = false.
Proof.
  unfold Mute.aiSpeaking, Mute.micEnabled.
  intros Hmic Hai%negb_true_iff%size_is_0_false.
  specialize (Hmic Hai). by destruct (Mute.streamRef st) as [[|]|].
Qed.

Lemma mute_speaking_context (st : Mute.State) :
  mute_inv st -> Mute.aiSpeaking st = true -> Mute.outputAudioContextRef st = true.
Proof.
  unfold Mute.aiSpeaking.
  intros (Hctx & _) Hai%negb_true_iff%size_is_0_false.
  destruct (Mute.outputAudioContextRef st); [done |]. by destruct Hai; apply Hctx.
Qed.

(** C4.  The invariant of the claim is lost over a reconnection.  With
    a chunk playing, the session closes: [onclose] only records
    [DISCONNECTED], the source stays in [activeSourcesRef] and goes on
    playing.  [connect] then enables the track of the new stream.  The
    tutor's audio is queued and audible and the microphone is open, and
    no interruption took place: the source was never stopped. *)
Theorem reconnect_opens_mic_while_speaking :
  (let st := Control.run Control.connected [Control.Message 0 (chunk 5); Control.Close] in
   let st' := Control.step st Control.Connect in
   Control.connectionState st = DISCONNECTED /\
   Control.aiSpeaking st = true /\ Control.micEnabled st = false /\
   Control.aiSpeaking st' = true /\ Control.micEnabled st' = true /\
   audible (Control.started st') (Control.stopped st') (Control.ended st') =
     Control.started st' /\
   length (Control.started st') = 1%nat) /\
  (let st := Mute.run Mute.connected [Mute.Message 0 (chunk 5); Mute.Close] in
   let st' := Mute.step st Mute.Connect in
   Mute.connectionState st = DISCONNECTED /\
   Mute.aiSpeaking st = true /\ Mute.micEnabled st = false /\
   Mute.aiSpeaking st' = true /\ Mute.micEnabled st' = true /\
   audible (Mute.started st') (Mute.stopped st') (Mute.ended st') = Mute.started st' /\
   length (Mute.started st') = 1%nat).
Proof. split; vm_compute; repeat split; reflexivity. Qed.

(** X1.  Within one session the invariant holds, in the two revisions
    that mute: in every state reached from the connected hook without a
    new [connect], the microphone track is disabled while tutor audio is
    queued or playing.  The button pressed while the tutor speaks, and
    a message flagged [interrupted] whose handler gets as far as the
    check, empty the playback set and enable the microphone in the same
    step. *)
Theorem mic_closed_within_session :
  (forall events : list Control.Event,
      Forall Control.sameSession events ->
      let st := Control.run Control.connected events in
      (Control.aiSpeaking st = true -> Control.micEnabled st = false) /\
      (forall now : Q,
          Control.aiSpeaking st = true ->
          Control.aiSpeaking (Control.toggleMute now st) = false /\
          (Control.streamRef st <> None ->
           Control.micEnabled (Control.toggleMute now st) = true)) /\
      (forall (now : Q) (message : LiveServerMessage),
          interrupted message = true -> Control.reachesInterrupted st message ->
          Control.aiSpeaking (Control.onmessage now message st) = false /\
          (Control.streamRef st <> None ->
           Control.micEnabled (Control.onmessage now message st) = true))) /\
  (forall events : list Mute.Event,
      Forall Mute.sameSession events ->
      let st := Mute.run Mute.connected events in
      (Mute.aiSpeaking st = true -> Mute.micEnabled st = false) /\
      (forall now : Q,
          Mute.aiSpeaking st = true ->
          Mute.aiSpeaking (Mute.toggleMute now st) = false /\
          (Mute.streamRef st <> None ->
           Mute.micEnabled (Mute.toggleMute now st) = true)) /\
      (forall (now : Q) (message : LiveServerMessage),
          Mute.aiSpeaking st = true ->
          interrupted message = true -> Mute.reachesInterrupted st message ->
          Mute.aiSpeaking (Mute.onmessage now message st) = false /\
          (Mute.streamRef st <> None ->
           Mute.micEnabled (Mute.onmessage now message st) = true))).
Proof.
  split.
  - intros events Hev st. pose proof (control_session_gate events Hev) as Hinv.
    fold st in Hinv. split; [| split].
    + by apply control_speaking_muted.
    + intros now. apply control_toggleMute_speaking.
    + intros now m. apply control_interrupted_speaking.
  - intros events Hev st. pose proof (mute_session_gate events Hev) as Hinv.
    pose proof (mute_reachable events) as Hreach. fold st in Hinv, Hreach.
    split; [| split].
    + by apply mute_speaking_muted.
    + intros now Hai. apply mute_toggleMute_speaking; [| done].
      by apply mute_speaking_context.
    + intros now m Hai. apply mute_interrupted_speaking.
      by apply mute_speaking_context.
Qed.

Lemma mic_closed_within_session_witness :
  Control.micEnabled (Control.run Control.connected [Control.Message 0 (chunk 1)]) = false /\
  Mute.micEnabled (Mute.run Mute.connected [Mute.Message 0 (chunk 1)]) = false.
Proof.
  split.
  - refine (proj1 (proj1 mic_closed_within_session [Control.Message 0 (chunk 1)] _) _).
    + repeat constructor.
    + vm_compute. reflexivity.
  - refine (proj1 (proj2 mic_closed_within_session [Mute.Message 0 (chunk 1)] _) _).
    + repeat constructor.
    + vm_compute. reflexivity.
Defined.

(** *** Re-opening the microphone *)









(** *** Frames captured while the microphone is muted *)

(** C6, amended.  A frame processed while the microphone track is
    disabled is still passed to [session.sendRealtimeInput]; its
    loudness is not published, [volume] keeps its value. *)
Theorem muted_frames_still_sent :
  (forall (st : Control.State) (inputData : list Q),
      Control.micEnabled st = false ->
      Control.sent (Control.onaudioprocess inputData st) =
        Control.sent st ++ [Media inputData] /\
      Control.volume (Control.onaudioprocess inputData st) = Control.volume st) /\
  (forall (st : Mute.State) (inputData : list Q),
      Mute.micEnabled st = false ->
      Mute.sent (Mute.onaudioprocess inputData st) = Mute.sent st ++ [Media inputData] /\
      Mute.volume (Mute.onaudioprocess inputData st) = Mute.volume st).
Proof.
  split.
  - intros st frame. unfold Control.micEnabled. control_fields st. control_exec; done.
  - intros st frame. unfold Mute.micEnabled. mute_fields st. mute_exec; done.
Qed.

Lemma muted_frames_still_sent_witness :
  (let st := Control.run Control.connected [Control.Message 0 (chunk 1)] in
   Control.sent (Control.onaudioprocess [0; 0; 0; 0] st) =
     Control.sent st ++ [Media [0; 0; 0; 0]] /\
   Control.volume (Control.onaudioprocess [0; 0; 0; 0] st) = Control.volume st) /\
  (let st := Mute.run Mute.connected [Mute.Message 0 (chunk 1)] in
   Mute.sent (Mute.onaudioprocess [0; 0; 0; 0] st) = Mute.sent st ++ [Media [0; 0; 0; 0]] /\
   Mute.volume (Mute.onaudioprocess [0; 0; 0; 0] st) = Mute.volume st).
Proof.
  split.
  - refine (proj1 muted_frames_still_sent _ [0; 0; 0; 0] _). vm_compute. reflexivity.
  - refine (proj2 muted_frames_still_sent _ [0; 0; 0; 0] _). vm_compute. reflexivity.
Defined.

Lemma muted_frame_sent_counterexample :
  let st := Control.run Control.connected [Control.Message 0 (chunk 1)] in
  Control.micEnabled st = false /\
  Control.sent (Control.onaudioprocess [0; 0; 0; 0] st) <> Control.sent st.
Proof. split; vm_compute; [reflexivity | discriminate]. Qed.

(** *** Control messages and their reply *)

Lemma control_pending_run (events : list Control.Event) :
  forall st : Control.State,
    Control.ignoringNextTurnRef st = true -> Forall Control.keepsPending events ->
    Control.ignoringNextTurnRef (Control.run st events) = true /\
    Control.emitted (Control.run st events) = Control.emitted st /\
    Control.started (Control.run st events) = Control.started st.
Proof.
  induction events as [|ev events IH]; intros st Hign Hev; [done |].
  inversion Hev as [|? ? Hk Hrest]; subst.
  destruct (control_pending_step st ev Hign Hk) as (Hi & He & Hs).
  destruct (IH (Control.step st ev) Hi Hrest) as (Hi' & He' & Hs').
  change (Control.run st (ev :: events)) with (Control.run (Control.step st ev) events).
  repeat split; congruence.
Qed.

Lemma control_sendControlMessage_effect (st : Control.State) (text : string) :
  Control.sessionPromiseRef st = true ->
  let st' := Control.sendControlMessage text st in
  Control.ignoringNextTurnRef st' = true /\
  Control.sent st' = Control.sent st ++ [Text text] /\
  Control.emitted st' = Control.emitted st /\
  Control.started st' = Control.started st.
Proof. control_fields st. cbn. intros ->. control_exec. done. Qed.

Lemma control_closing_effect (st : Control.State) (now : Q) (message : LiveServerMessage) :
  turnComplete message = true ->
  let st' := Control.onmessage now message st in
  Control.ignoringNextTurnRef st' = false /\
  (outputTranscription message = "" -> inputTranscription message = "" ->
   Control.emitted st' = Control.emitted st) /\
  (inlineData message = None -> Control.started st' = Control.started st).
Proof.
  destruct message as [tc int out inp [[d|]|]]; cbn [turnComplete outputTranscription
    inputTranscription inlineData]; intros ->; control_fields st; control_exec;
    (split; [done |]); split; try done; intros; by subst.
Qed.

(** C7, amended.  [sendControlMessage] on a hook with a session
    transmits the text and sets [ignoringNextTurnRef].  Whatever
    arrives before a message with [turnComplete] leaves the flag set,
    calls [onTranscriptionUpdate] not once and starts no source.  The
    first message with [turnComplete] clears the flag, whichever reply
    it closes; when it carries no text, no transcript call is made for
    it, and when it carries no audio, no source is started. *)
Theorem control_reply_suppressed :
  forall (st : Control.State) (text : string) (events : list Control.Event)
         (now : Q) (message : LiveServerMessage),
    Control.sessionPromiseRef st = true ->
    Forall Control.keepsPending events ->
    turnComplete message = true ->
    let pending := Control.run (Control.sendControlMessage text st) events in
    let closed := Control.onmessage now message pending in
    Control.sent (Control.sendControlMessage text st) = Control.sent st ++ [Text text] /\
    Control.ignoringNextTurnRef pending = true /\
    Control.emitted pending = Control.emitted st /\
    Control.started pending = Control.started st /\
    Control.ignoringNextTurnRef closed = false /\
    (outputTranscription message = "" -> inputTranscription message = "" ->
     Control.emitted closed = Control.emitted st) /\
    (inlineData message = None -> Control.started closed = Control.started st).
Proof.
  intros st text events now message Hsession Hev Htc pending closed.
  destruct (control_sendControlMessage_effect st text Hsession) as (Hi & Hsent & He & Hs).
  destruct (control_pending_run events _ Hi Hev) as (Hi' & He' & Hs').
  destruct (control_closing_effect pending now message Htc) as (Hi'' & He'' & Hs'').
  fold pending in Hi', He', Hs'. fold closed in Hi'', He'', Hs''.
  split; [done |]. split; [done |]. split; [congruence |]. split; [congruence |].
  split; [done |]. split.
  - intros Ho Hin. rewrite (He'' Ho Hin). congruence.
  - intros Ha. rewrite (Hs'' Ha). congruence.
Qed.

Lemma control_reply_suppressed_witness :
  let acknowledgment :=
    {| turnComplete := false; interrupted := false;
       outputTranscription := "Okay"; inputTranscription := "";
       inlineData := Some (Decoded 1) |} in
  let pending :=
    Control.run (Control.sendControlMessage "Speak slowly" Control.connected)
      [Control.Message 0 acknowledgment] in
  let closed := Control.onmessage 1 completion pending in
  Control.sent (Control.sendControlMessage "Speak slowly" Control.connected) =
    Control.sent Control.connected ++ [Text "Speak slowly"] /\
  Control.ignoringNextTurnRef pending = true /\
  Control.emitted pending = Control.emitted Control.connected /\
  Control.started pending = Control.started Control.connected /\
  Control.ignoringNextTurnRef closed = false /\
  (outputTranscription completion = "" -> inputTranscription completion = "" ->
   Control.emitted closed = Control.emitted Control.connected) /\
  (inlineData completion = None -> Control.started closed = Control.started Control.connected).
Proof.
  refine (control_reply_suppressed Control.connected "Speak slowly"
            [Control.Message 0 _] 1 completion _ _ _).
  - reflexivity.
  - repeat constructor.
  - reflexivity.
Defined.

(** The claim as stated fails in two ways.  An acknowledgment that
    arrives in the message that also carries [turnComplete] is
    transcribed and played, because the flag is cleared at the top of
    the handler; and when the [turnComplete] of an earlier reply arrives
    after the control message, it ends the suppression, and the
    acknowledgment that follows is transcribed and played. *)
Lemma acknowledgment_surfaces_counterexample :
  let acknowledgment (last : bool) :=
    {| turnComplete := last; interrupted := false;
       outputTranscription := "Okay"; inputTranscription := "";
       inlineData := Some (Decoded 1) |} in
  let st := Control.sendControlMessage "Speak slowly" Control.connected in
  let st1 := Control.run st [Control.Message 0 (acknowledgment true)] in
  let st2 :=
    Control.run st [Control.Message 0 completion; Control.Message 1 (acknowledgment false)] in
  Control.ignoringNextTurnRef st = true /\
  (Control.emitted st1 = [("", "Okay")] /\ length (Control.started st1) = 1%nat) /\
  (Control.emitted st2 = [("", "Okay")] /\ length (Control.started st2) = 1%nat).
Proof. vm_compute. repeat split; reflexivity. Qed.

(** C8, amended.  While [ignoringNextTurnRef] is set, a message clears
    it exactly when it carries [turnComplete]; any other message, a
    transcription of the user's speech included, leaves it set and is
    itself dropped from the transcript. *)
Theorem suppression_ends_at_turn_complete :
  forall (st : Control.State) (now : Q) (message : LiveServerMessage),
    Control.ignoringNextTurnRef st = true ->
    Control.ignoringNextTurnRef (Control.onmessage now message st) =
      negb (turnComplete message) /\
    (turnComplete message = false ->
     Control.emitted (Control.onmessage now message st) = Control.emitted st).
Proof.
  intros st now m Hign.
  destruct (control_ignoring_onmessage st now m) as (Hi & He).
  rewrite Hign in Hi. split; [done |].
  intros Htc. rewrite Htc in Hi. by apply He.
Qed.

Lemma suppression_ends_at_turn_complete_witness :
  let st := Control.sendControlMessage "Speak slowly" Control.connected in
  Control.ignoringNextTurnRef (Control.onmessage 0 (utterance "hello") st) =
    negb (turnComplete (utterance "hello")) /\
  (turnComplete (utterance "hello") = false ->
   Control.emitted (Control.onmessage 0 (utterance "hello") st) = Control.emitted st).
Proof.
  refine (suppression_ends_at_turn_complete _ 0 (utterance "hello") _). reflexivity.
Defined.

Lemma utterance_counterexample :
  let st := Control.sendControlMessage "Speak slowly" Control.connected in
  Control.ignoringNextTurnRef st = true /\
  Control.ignoringNextTurnRef (Control.onmessage 0 (utterance "hello") st) <> false.
Proof. split; vm_compute; [reflexivity | discriminate]. Qed.

(** *** The transcript while a reply is suppressed *)

Lemma control_ignoring_messages (ms : list (Q * LiveServerMessage)) :
  forall st : Control.State,
    Control.ignoringNextTurnRef (Control.run st (Control.messages ms)) = true ->
    Control.ignoringNextTurnRef st = true /\
    Control.emitted (Control.run st (Control.messages ms)) = Control.emitted st.
Proof.
  induction ms as [|[now m] ms IH]; intros st; [done |].
  change (Control.run st (Control.messages ((now, m) :: ms)))
    with (Control.run (Control.onmessage now m st) (Control.messages ms)).
  intros Hign. destruct (IH _ Hign) as (Hi & He).
  destruct (control_ignoring_onmessage st now m) as (Hi' & He').
  rewrite Hi in Hi'. symmetry in Hi'. apply andb_true_iff in Hi' as [Hi' _].
  split; [done |]. rewrite He. by apply He'.
Qed.

(** C9.  If [ignoringNextTurnRef] is still set after a series of server
    messages, none of them reached [onTranscriptionUpdate]: the
    transcript of the application is what it was, for the user's
    transcriptions as for the tutor's. *)
Theorem suppressed_messages_leave_transcript :
  forall (st : Control.State) (ms : list (Q * LiveServerMessage)),
    let st' := Control.run st (Control.messages ms) in
    Control.ignoringNextTurnRef st' = true ->
    Control.emitted st' = Control.emitted st /\
    App.transcript (Control.emitted st') = App.transcript (Control.emitted st).
Proof.
  intros st ms st' Hign. destruct (control_ignoring_messages ms st Hign) as (_ & He).
  fold st' in He. by rewrite He.
Qed.

Lemma suppressed_messages_leave_transcript_witness :
  let st := Control.sendControlMessage "Speak slowly" Control.connected in
  let st' :=
    Control.run st (Control.messages [(0, utterance "hello"); (1, chunk 1)]) in
  Control.emitted st' = Control.emitted st /\
  App.transcript (Control.emitted st') = App.transcript (Control.emitted st).
Proof.
  refine (suppressed_messages_leave_transcript _ [(0, utterance "hello"); (1, chunk 1)] _).
  reflexivity.
Defined.

(** *** The playback speed *)

Lemma speed_started_run (events : list Speed.Event) :
  forall st : Speed.State,
    exists new, Speed.started (Speed.run st events) = Speed.started st ++ new.
Proof.
  induction events as [|ev events IH]; intros st.
  - exists []. cbn. by rewrite app_nil_r.
  - destruct (speed_started_step st ev) as (new & Hnew).
    destruct (IH (Speed.step st ev)) as (new' & Hnew').
    exists (new ++ new').
    change (Speed.run st (ev :: events)) with (Speed.run (Speed.step st ev) events).
    by rewrite Hnew', Hnew, app_assoc.
Qed.

(** C10.  In the speed revision, changing the speed leaves the sources
    already started, the playback set and the cursor as they were, and
    nothing that follows rewrites a started source.  The next chunk is
    started with the new speed as its playback rate and occupies
    [duration / speed]. *)
Theorem speed_change_spares_schedule :
  forall (st : Speed.State) (audioSpeed : Q) (events : list Speed.Event),
    let st' := Speed.setAudioSpeed audioSpeed st in
    Speed.started st' = Speed.started st /\
    Speed.activeSourcesRef st' = Speed.activeSourcesRef st /\
    Speed.nextStartTimeRef st' = Speed.nextStartTimeRef st /\
    (exists new, Speed.started (Speed.run st' events) = Speed.started st ++ new) /\
    (forall now d : Q,
        Speed.outputReady st ->
        Speed.started (Speed.onmessage now (chunk d) st') =
          Speed.started st ++
            [{| src_id := length (Speed.started st);
                src_start := Math_max (Speed.nextStartTimeRef st) now;
                src_duration := d; src_rate := audioSpeed |}] /\
        Speed.nextStartTimeRef (Speed.onmessage now (chunk d) st') =
          Math_max (Speed.nextStartTimeRef st) now + d / audioSpeed).
Proof.
  intros st speed events st'.
  assert (Speed.started st' = Speed.started st /\
          Speed.activeSourcesRef st' = Speed.activeSourcesRef st /\
          Speed.nextStartTimeRef st' = Speed.nextStartTimeRef st /\
          Speed.audioSpeedRef st' = speed /\
          (Speed.outputReady st -> Speed.outputReady st'))
    as (Hs & Ha & Hc & Hr & Ho) by (subst st'; by destruct st).
  split; [done |]. split; [done |]. split; [done |]. split.
  - destruct (speed_started_run events st') as (new & Hnew). exists new. by rewrite <- Hs.
  - intros now d Hready.
    destruct (speed_onmessage_chunk st' now d (Ho Hready)) as (Hs' & Hc' & _).
    rewrite Hs, Hc, Hr in Hs'. rewrite Hc, Hr in Hc'. done.
Qed.

Lemma speed_change_spares_schedule_witness :
  let st := Speed.run Speed.connected [Speed.Message 0 (chunk 3)] in
  let st' := Speed.setAudioSpeed (3 # 2) st in
  Speed.started (Speed.onmessage 1 (chunk 3) st') =
    Speed.started st ++
      [{| src_id := length (Speed.started st);
          src_start := Math_max (Speed.nextStartTimeRef st) 1;
          src_duration := 3; src_rate := 3 # 2 |}] /\
  Speed.nextStartTimeRef (Speed.onmessage 1 (chunk 3) st') =
    Math_max (Speed.nextStartTimeRef st) 1 + 3 / (3 # 2).
Proof.
  refine (proj2 (proj2 (proj2 (proj2
            (speed_change_spares_schedule
               (Speed.run Speed.connected [Speed.Message 0 (chunk 3)]) (3 # 2) [])))) 1 3 _).
  split; reflexivity.
Defined.

(** * The hook with a turn state *)

Ltac turns_known st :=
  lazymatch st with Turns.Build_State _ _ _ _ _ _ _ _ _ _ _ _ _ _ _ _ _ _ _ => idtac end.

(** Projections, setters and the tests on booleans. *)
Ltac turns_norm :=
  cbv beta iota zeta delta
    [Turns.turnState Turns.connectionState Turns.errorMessage Turns.volume
    Turns.currentSpeedModeRef Turns.pendingSpeedUpdateRef
    Turns.audioContextsRef Turns.streamRef Turns.processorRef
    Turns.audioQueueRef Turns.isPlayingRef Turns.currentSourceRef
    Turns.nextStartTimeRef Turns.isInterruptedRef Turns.sessionRef
    Turns.started Turns.stopped Turns.emitted Turns.sent Turns.set_turnState
    Turns.set_connectionState Turns.set_errorMessage Turns.set_volume
    Turns.set_currentSpeedModeRef Turns.set_pendingSpeedUpdateRef
    Turns.set_audioContextsRef Turns.set_streamRef Turns.set_processorRef
    Turns.set_audioQueueRef Turns.set_isPlayingRef Turns.set_currentSourceRef
    Turns.set_nextStartTimeRef Turns.set_isInterruptedRef
    Turns.set_sessionRef Turns.set_started Turns.set_stopped
    Turns.set_emitted Turns.set_sent Turns.step Turns.queueAudio_accepts
    turnComplete interrupted outputTranscription inputTranscription
    inlineData negb andb orb].

(** Unfold one callback whose state argument is known. *)
Ltac turns_call :=
  match goal with
  | |- context [Turns.send ?a0 ?st] =>
      turns_known st; let x := fresh in
      set (x := Turns.send a0 st);
      cbv beta iota zeta delta [Turns.send] in x; subst x
  | |- context [Turns.playNextInQueue ?a0 ?st] =>
      turns_known st; let x := fresh in
      set (x := Turns.playNextInQueue a0 st);
      cbv beta iota zeta delta [Turns.playNextInQueue] in x; subst x
  | |- context [Turns.onended ?a0 ?a1 ?st] =>
      turns_known st; let x := fresh in
      set (x := Turns.onended a0 a1 st);
      cbv beta iota zeta delta [Turns.onended] in x; subst x
  | |- context [Turns.queueAudio_decoded ?a0 ?a1 ?st] =>
      turns_known st; let x := fresh in
      set (x := Turns.queueAudio_decoded a0 a1 st);
      cbv beta iota zeta delta [Turns.queueAudio_decoded] in x; subst x
  | |- context [Turns.interrupt ?st] =>
      turns_known st; let x := fresh in
      set (x := Turns.interrupt st);
      cbv beta iota zeta delta [Turns.interrupt] in x; subst x
  | |- context [Turns.changeSpeed ?a0 ?st] =>
      turns_known st; let x := fresh in
      set (x := Turns.changeSpeed a0 st);
      cbv beta iota zeta delta [Turns.changeSpeed] in x; subst x
  | |- context [Turns.disconnect ?st] =>
      turns_known st; let x := fresh in
      set (x := Turns.disconnect st);
      cbv beta iota zeta delta [Turns.disconnect] in x; subst x
  | |- context [Turns.connect ?st] =>
      turns_known st; let x := fresh in
      set (x := Turns.connect st);
      cbv beta iota zeta delta [Turns.connect] in x; subst x
  | |- context [Turns.connect_failed ?a0 ?a1 ?st] =>
      turns_known st; let x := fresh in
      set (x := Turns.connect_failed a0 a1 st);
      cbv beta iota zeta delta [Turns.connect_failed] in x; subst x
  | |- context [Turns.onclose ?st] =>
      turns_known st; let x := fresh in
      set (x := Turns.onclose st);
      cbv beta iota zeta delta [Turns.onclose] in x; subst x
  | |- context [Turns.onerror ?st] =>
      turns_known st; let x := fresh in
      set (x := Turns.onerror st);
      cbv beta iota zeta delta [Turns.onerror] in x; subst x
  | |- context [Turns.emit ?a0 ?a1 ?st] =>
      turns_known st; let x := fresh in
      set (x := Turns.emit a0 a1 st);
      cbv beta iota zeta delta [Turns.emit] in x; subst x
  | |- context [Turns.onTranscription ?a0 ?st] =>
      turns_known st; let x := fresh in
      set (x := Turns.onTranscription a0 st);
      cbv beta iota zeta delta [Turns.onTranscription] in x; subst x
  | |- context [Turns.onmessage ?a0 ?a1 ?st] =>
      turns_known st; let x := fresh in
      set (x := Turns.onmessage a0 a1 st);
      cbv beta iota zeta delta [Turns.onmessage] in x; subst x
  | |- context [Turns.onaudioprocess ?a0 ?st] =>
      turns_known st; let x := fresh in
      set (x := Turns.onaudioprocess a0 st);
      cbv beta iota zeta delta [Turns.onaudioprocess] in x; subst x
  end.

Ltac turns_exec :=
  exec_with ltac:(idtac; turns_norm) ltac:(idtac; turns_call).
Ltac turns_fields st :=
  destruct st as [? ? ? ? ? ? ? ? ? ? ? ? ? ? ? ? ? ? ?].

Ltac turns_event ev :=
  destruct ev as [now [tc int out inp [[d|]|]] | id now | | mode | frame | | | msg haveStream | |].

Lemma turns_connect_initial : Turns.connect Turns.initial = Turns.connected.
Proof. reflexivity. Qed.

Lemma turns_run_snoc (st : Turns.State) (events : list Turns.Event) (ev : Turns.Event) :
  Turns.run st (events ++ [ev]) = Turns.step (Turns.run st events) ev.
Proof. unfold Turns.run. by rewrite fold_left_app. Qed.

(** The microphone gate of this hook is [isPlayingRef]. *)
Lemma turns_gate_on_frames :
  forall (st : Turns.State) (inputData : list Q),
    let st' := Turns.onaudioprocess inputData st in
    Turns.volume st' = loudness inputData /\
    (Turns.isPlayingRef st = true ->
     Turns.sent st' = Turns.sent st /\
     Turns.pendingSpeedUpdateRef st' = Turns.pendingSpeedUpdateRef st) /\
    (Turns.isPlayingRef st = false ->
     Turns.sent st' =
       Turns.sent st ++
         (if Turns.pendingSpeedUpdateRef st && Turns.loud inputData
          then [Text (Turns.getSystemPromptForSpeed (Turns.currentSpeedModeRef st))]
          else []) ++ [Media inputData] /\
     Turns.pendingSpeedUpdateRef st' =
       Turns.pendingSpeedUpdateRef st && negb (Turns.loud inputData)).
Proof.
  intros st frame. turns_fields st. cbv zeta.
  destruct (Turns.loud frame) eqn:Hloud; turns_exec;
    repeat split; try done; intros; subst; try done;
    by rewrite <- ?app_assoc, ?app_nil_r.
Qed.

(** *** The turn and the gate *)

Definition turns_inv (st : Turns.State) : Prop :=
  (Turns.turnState st = AI_SPEAKING -> Turns.isPlayingRef st = true) /\
  Turns.turnState st <> AI_PROCESSING.

Lemma turns_inv_step (st : Turns.State) (ev : Turns.Event) :
  turns_inv st -> turns_inv (Turns.step st ev).
Proof.
  unfold turns_inv. turns_event ev; turns_fields st; turns_norm;
    intros (Hturn & Hproc); turns_exec; split; try done;
    intros; by apply Hturn.
Qed.

Lemma turns_inv_run (events : list Turns.Event) :
  forall st : Turns.State, turns_inv st -> turns_inv (Turns.run st events).
Proof.
  induction events as [|ev events IH]; intros st Hst; [done |].
  apply (IH (Turns.step st ev)), turns_inv_step, Hst.
Qed.

(** X2.  While the turn is the tutor's, no captured frame is transmitted; the
    turn is never [AI_PROCESSING]. *)
Theorem turns_no_frame_while_ai_speaks :
  forall (events : list Turns.Event) (inputData : list Q),
    let st := Turns.run Turns.connected events in
    Turns.turnState st <> AI_PROCESSING /\
    (Turns.turnState st = AI_SPEAKING ->
     Turns.sent (Turns.step st (Turns.AudioProcess inputData)) = Turns.sent st).
Proof.
  intros events frame st.
  assert (turns_inv st) as (Hturn & Hproc) by (by apply turns_inv_run).
  split; [done |]. intros Hspeaking%Hturn.
  cbn. destruct (Turns.processorRef st); [| done].
  by apply (turns_gate_on_frames st frame).
Qed.

Lemma turns_no_frame_while_ai_speaks_witness :
  let st := Turns.run Turns.connected [Turns.Message 0 (chunk 1)] in
  Turns.sent (Turns.step st (Turns.AudioProcess [1 # 2; 1 # 2])) = Turns.sent st.
Proof.
  refine (proj2 (turns_no_frame_while_ai_speaks [Turns.Message 0 (chunk 1)] [1 # 2; 1 # 2]) _).
  vm_compute. reflexivity.
Defined.

(** *** Interruption *)

Lemma turns_interrupt_effect :
  forall st : Turns.State,
    let st' := Turns.interrupt st in
    Turns.audioQueueRef st' = [] /\
    Turns.isPlayingRef st' = false /\
    Turns.currentSourceRef st' = None /\
    Turns.nextStartTimeRef st' = 0 /\
    Turns.turnState st' = USER_SPEAKING /\
    Turns.isInterruptedRef st' = true /\
    Turns.started st' = Turns.started st /\
    (forall id : nat, Turns.currentSourceRef st = Some id -> id ∈ Turns.stopped st') /\
    Turns.sent st' = Turns.sent st ++ (if Turns.sessionRef st then [Text "."] else []).
Proof.
  intros st. turns_fields st. turns_exec; repeat split; try done;
    try (intros ? [= <-]; set_solver); by rewrite app_nil_r.
Qed.

Lemma turns_discarding_step (st : Turns.State) (ev : Turns.Event) :
  Turns.isInterruptedRef st = true -> Turns.audioQueueRef st = [] ->
  Turns.isPlayingRef st = false -> Turns.turnState st = USER_SPEAKING ->
  Turns.noUserSpeech ev ->
  let st' := Turns.step st ev in
  Turns.isInterruptedRef st' = true /\ Turns.audioQueueRef st' = [] /\
  Turns.isPlayingRef st' = false /\ Turns.turnState st' = USER_SPEAKING /\
  Turns.started st' = Turns.started st.
Proof.
  intros Hi Hq Hp Ht Hev. turns_event ev; cbn in Hev; turns_fields st;
    cbn in Hi, Hq, Hp, Ht; subst; try rewrite Hev; turns_exec; done.
Qed.

Lemma turns_discarding_run (events : list Turns.Event) :
  forall st : Turns.State,
    Turns.isInterruptedRef st = true -> Turns.audioQueueRef st = [] ->
    Turns.isPlayingRef st = false -> Turns.turnState st = USER_SPEAKING ->
    Forall Turns.noUserSpeech events ->
    let st' := Turns.run st events in
    Turns.isInterruptedRef st' = true /\ Turns.audioQueueRef st' = [] /\
    Turns.isPlayingRef st' = false /\ Turns.turnState st' = USER_SPEAKING /\
    Turns.started st' = Turns.started st.
Proof.
  induction events as [|ev events IH]; intros st Hi Hq Hp Ht Hev; [done |].
  inversion Hev as [|? ? Hev1 Hrest]; subst.
  destruct (turns_discarding_step st ev Hi Hq Hp Ht Hev1) as (Hi' & Hq' & Hp' & Ht' & Hs').
  destruct (IH (Turns.step st ev) Hi' Hq' Hp' Ht' Hrest) as (? & ? & ? & ? & Hs'').
  change (Turns.run st (ev :: events)) with (Turns.run (Turns.step st ev) events).
  cbv zeta. repeat split; try done. by rewrite Hs'', Hs'.
Qed.

(** X3.  After [interrupt], whatever arrives before the session transcribes
    the user's speech starts no source and queues nothing: the rest of
    the interrupted reply is discarded and the turn stays the user's. *)
Theorem turns_interrupt_discards_reply :
  forall (st : Turns.State) (events : list Turns.Event),
    Forall Turns.noUserSpeech events ->
    let st' := Turns.run (Turns.interrupt st) events in
    Turns.started st' = Turns.started st /\
    Turns.audioQueueRef st' = [] /\
    Turns.isPlayingRef st' = false /\
    Turns.turnState st' = USER_SPEAKING.
Proof.
  intros st events Hev st'.
  destruct (turns_interrupt_effect st) as (Hq & Hp & _ & _ & Ht & Hi & Hs & _).
  destruct (turns_discarding_run events _ Hi Hq Hp Ht Hev) as (_ & Hq' & Hp' & Ht' & Hs').
  fold st' in Hq', Hp', Ht', Hs'. repeat split; try done. by rewrite Hs', Hs.
Qed.

Lemma turns_interrupt_discards_reply_witness :
  let st := Turns.run Turns.connected [Turns.Message 0 (chunk 1); Turns.Message 0 (chunk 2)] in
  let st' := Turns.run (Turns.interrupt st) [Turns.Message 1 (chunk 3); Turns.Ended 0 1] in
  Turns.started st' = Turns.started st /\
  Turns.audioQueueRef st' = [] /\
  Turns.isPlayingRef st' = false /\
  Turns.turnState st' = USER_SPEAKING.
Proof.
  refine (turns_interrupt_discards_reply _ [Turns.Message 1 (chunk 3); Turns.Ended 0 1] _).
  repeat constructor.
Defined.

(** X4.  The message that transcribes the user's speech lifts the discard,
    but an audio chunk in that same message is still dropped:
    [queueAudio] is called before the flag is cleared.  The chunk of a
    later message is started. *)
Theorem turns_user_speech_lifts_discard :
  forall (st : Turns.State) (now : Q) (message : LiveServerMessage) (d : Q),
    Turns.isInterruptedRef st = true ->
    truthy (inputTranscription message) = true ->
    let st' := Turns.onmessage now message st in
    Turns.isInterruptedRef st' = false /\
    Turns.audioQueueRef st' = Turns.audioQueueRef st /\
    Turns.started st' = Turns.started st /\
    (Turns.audioContextsRef st = true -> Turns.isPlayingRef st = false ->
     Turns.audioQueueRef st = [] ->
     exists s : Source,
       Turns.started (Turns.onmessage now (chunk d) st') = Turns.started st ++ [s] /\
       src_duration s = d).
Proof.
  intros st now [tc int out inp [[d'|]|]] d Hi Hinp; cbn in Hinp; turns_fields st;
    cbn in Hi; subst; unfold chunk;
    (turns_exec; try congruence; repeat split; try done;
     intros ? ? ?; simplify_eq; turns_exec; simplify_eq/=; by eexists).
Qed.

Lemma turns_user_speech_lifts_discard_witness :
  let st := Turns.interrupt Turns.connected in
  let st' := Turns.onmessage 1 (utterance "hello") st in
  Turns.isInterruptedRef st' = false /\
  Turns.audioQueueRef st' = Turns.audioQueueRef st /\
  Turns.started st' = Turns.started st /\
  (Turns.audioContextsRef st = true -> Turns.isPlayingRef st = false ->
   Turns.audioQueueRef st = [] ->
   exists s : Source,
     Turns.started (Turns.onmessage 1 (chunk 2) st') = Turns.started st ++ [s] /\
     src_duration s = 2).
Proof.
  refine (turns_user_speech_lifts_discard _ 1 (utterance "hello") 2 _ _); reflexivity.
Defined.

(** *** The order of playback *)

Definition turns_accepting (st : Turns.State) : Prop :=
  Turns.isInterruptedRef st = false /\ Turns.audioContextsRef st = true.

Lemma turns_chunkDurations_cons (ev : Turns.Event) (events : list Turns.Event) :
  Turns.chunkDurations (ev :: events) =
  Turns.chunkDurations [ev] ++ Turns.chunkDurations events.
Proof. unfold Turns.chunkDurations. cbn [flat_map]. by rewrite app_nil_r. Qed.

Lemma turns_order_step (st : Turns.State) (ev : Turns.Event) :
  Turns.ongoing ev -> turns_accepting st ->
  let st' := Turns.step st ev in
  turns_accepting st' /\
  map src_duration (Turns.started st') ++ Turns.audioQueueRef st' =
  (map src_duration (Turns.started st) ++ Turns.audioQueueRef st) ++
  Turns.chunkDurations [ev].
Proof.
  unfold turns_accepting.
  intros Hev [Hi Hc]. turns_event ev; cbn in Hev; try done; turns_fields st;
    cbn in Hi, Hc; subst; unfold Turns.chunkDurations; cbn [flat_map app inlineData];
    turns_exec; (split; [done |]);
    rewrite ?map_app, ?app_nil_r, <- ?app_assoc; cbn [map src_duration app];
    try done;
    try match goal with H : ?l ++ [_] = [] |- _ => by destruct l end;
    congruence.
Qed.

Lemma turns_order_run (events : list Turns.Event) :
  forall st : Turns.State,
    Forall Turns.ongoing events -> turns_accepting st ->
    let st' := Turns.run st events in
    map src_duration (Turns.started st') ++ Turns.audioQueueRef st' =
    (map src_duration (Turns.started st) ++ Turns.audioQueueRef st) ++
    Turns.chunkDurations events.
Proof.
  induction events as [|ev events IH]; intros st Hev Hst.
  - cbn. by rewrite app_nil_r.
  - inversion Hev as [|? ? Hev1 Hrest]; subst.
    destruct (turns_order_step st ev Hev1 Hst) as [Hst' Hstep].
    change (Turns.run st (ev :: events)) with (Turns.run (Turns.step st ev) events).
    cbv zeta. rewrite (IH _ Hrest Hst'), Hstep, (turns_chunkDurations_cons ev events).
    by rewrite <- !app_assoc.
Qed.

(** X5.  As long as the user does not interrupt and the connection stays,
    the chunks are played in the order of their arrival and none is
    lost: the durations of the sources started so far, followed by the
    buffers still queued, are the durations of the chunks received. *)
Theorem turns_plays_in_arrival_order :
  forall events : list Turns.Event,
    Forall Turns.ongoing events ->
    let st := Turns.run Turns.connected events in
    map src_duration (Turns.started st) ++ Turns.audioQueueRef st =
    Turns.chunkDurations events.
Proof.
  intros events Hev. apply (turns_order_run events Turns.connected Hev). by split.
Qed.

Lemma turns_plays_in_arrival_order_witness :
  let st :=
    Turns.run Turns.connected
      [Turns.Message 0 (chunk 1); Turns.Message 0 (chunk 2); Turns.Message 0 (chunk 3);
       Turns.Ended 0 1] in
  map src_duration (Turns.started st) ++ Turns.audioQueueRef st = [1; 2; 3].
Proof.
  refine (turns_plays_in_arrival_order
            [Turns.Message 0 (chunk 1); Turns.Message 0 (chunk 2); Turns.Message 0 (chunk 3);
             Turns.Ended 0 1] _).
  repeat constructor.
Defined.

(** *** One source at a time *)

Lemma no_overlap_snoc (l : list Source) (s : Source) :
  no_overlap l -> (forall a : Source, a ∈ l -> src_end a <= src_start s) ->
  no_overlap (l ++ [s]).
Proof.
  intros Hl Hs i j a b Hij Ha Hb.
  destruct (decide (j < length l)%nat) as [Hj|Hj].
  - rewrite lookup_app_l in Ha, Hb by lia. exact (Hl i j a b Hij Ha Hb).
  - rewrite lookup_app_r in Hb by lia.
    destruct (j - length l)%nat as [|n] eqn:E; [| by destruct n].
    cbn in Hb. simplify_eq.
    rewrite lookup_app_l in Ha by lia.
    apply Hs. by eapply list_elem_of_lookup_2.
Qed.

Definition turns_sched (st : Turns.State) : Prop :=
  (forall s : Source, s ∈ Turns.started st -> src_end s <= Turns.nextStartTimeRef st) /\
  no_overlap (Turns.started st) /\
  Forall (Qle 0) (Turns.audioQueueRef st).

Lemma turns_sched_start (l : list Source) (cursor start d : Q) (id : nat) :
  (forall s : Source, s ∈ l -> src_end s <= cursor) -> no_overlap l ->
  cursor <= start -> 0 <= d ->
  let source := {| src_id := id; src_start := start; src_duration := d; src_rate := 1 |} in
  (forall s : Source, s ∈ l ++ [source] -> src_end s <= start + d) /\
  no_overlap (l ++ [source]).
Proof.
  intros Hl Hno Hc Hd source. split.
  - intros s [Hs | ->%list_elem_of_singleton]%elem_of_app.
    + specialize (Hl s Hs). lra.
    + unfold src_end, occupancy. cbn. unfold Qdiv. change (/ 1) with 1. lra.
  - apply no_overlap_snoc; [done |]. intros a Ha. specialize (Hl a Ha). cbn. lra.
Qed.

Ltac turns_queue_nonneg :=
  match goal with
  | Hq : Forall (Qle 0) ?q, Hd : 0 <= ?d, H : ?q ++ [?d] = ?x :: ?l |- _ =>
      let F := fresh in
      assert (F : Forall (Qle 0) (x :: l))
        by (rewrite <- H; apply Forall_app; split; [exact Hq | by constructor]);
      apply Forall_cons in F as [? ?]
  | Hq : Forall (Qle 0) (_ :: _) |- _ => apply Forall_cons in Hq as [? ?]
  end.

Lemma turns_sched_step (st : Turns.State) (ev : Turns.Event) :
  Turns.interrupts ev = false -> Turns.nonnegDuration ev ->
  turns_sched st -> turns_sched (Turns.step st ev).
Proof.
  unfold turns_sched.
  intros Hev Hd. turns_event ev; cbn in Hev, Hd; try done; turns_fields st; turns_norm;
    intros (Hend & Hno & Hq); turns_exec; try done;
    lazymatch goal with
    | |- (forall s, s ∈ ?l ++ [ {| src_id := ?id; src_start := ?start;
                                  src_duration := ?d; src_rate := 1 |} ] -> _) /\ _ /\ _ =>
        turns_queue_nonneg;
        destruct (turns_sched_start l _ start d id Hend Hno) as [? ?];
          [lra | assumption | by repeat split]
    | |- _ =>
        split; [done |]; split; [done |];
        apply Forall_app; split; [done | by constructor]
    end.
Qed.

Lemma turns_sched_run (events : list Turns.Event) :
  forall st : Turns.State,
    Forall (fun ev => Turns.interrupts ev = false) events ->
    Forall Turns.nonnegDuration events ->
    turns_sched st -> turns_sched (Turns.run st events).
Proof.
  induction events as [|ev events IH]; intros st Hev Hd Hst; [done |].
  inversion Hev; inversion Hd; subst.
  apply (IH (Turns.step st ev)); [done | done |]. by apply turns_sched_step.
Qed.

(** X6.  Unless the user interrupts, the sources that this hook starts
    never overlap, whenever their chunks arrive and whenever the
    [ended] events fire: each starts at or after the end of every
    earlier one. *)
Theorem turns_sources_never_overlap :
  forall events : list Turns.Event,
    Forall (fun ev => Turns.interrupts ev = false) events ->
    Forall Turns.nonnegDuration events ->
    no_overlap (Turns.started (Turns.run Turns.connected events)).
Proof.
  intros events Hev Hd.
  apply (turns_sched_run events Turns.connected Hev Hd).
  repeat split; [| | constructor].
  - intros s Hs. cbn in Hs. by apply elem_of_nil in Hs.
  - intros i j a b _ Ha. cbn in Ha. by rewrite lookup_nil in Ha.
Qed.

Lemma turns_sources_never_overlap_witness :
  no_overlap
    (Turns.started
       (Turns.run Turns.connected
          [Turns.Message 0 (chunk 1); Turns.Message 0 (chunk 2); Turns.Ended 0 3;
           Turns.Disconnect; Turns.Connect; Turns.Ended 1 4; Turns.Message 5 (chunk 1)])).
Proof.
  refine (turns_sources_never_overlap
            [Turns.Message 0 (chunk 1); Turns.Message 0 (chunk 2); Turns.Ended 0 3;
             Turns.Disconnect; Turns.Connect; Turns.Ended 1 4; Turns.Message 5 (chunk 1)] _ _).
  - repeat constructor.
  - repeat constructor; vm_compute; discriminate.
Defined.

Lemma app_singleton_ne {A : Type} (l : list A) (x : A) : l <> l ++ [x].
Proof.
  intros H. apply (f_equal length) in H. rewrite length_app in H. cbn in H. lia.
Qed.

(** X7.  Whichever callback starts a source, the source begins no
    earlier than the clock reading of that callback: at the cursor when
    the cursor is not behind the clock, and 50 ms after the reading when
    it is. *)
Theorem turns_start_after_clock :
  forall (st : Turns.State) (ev : Turns.Event) (s : Source),
    Turns.started (Turns.step st ev) = Turns.started st ++ [s] ->
    exists now : Q,
      Turns.clock ev = Some now /\
      now <= src_start s /\
      (Turns.nextStartTimeRef st < now -> src_start s = now + (5 # 100)) /\
      (now <= Turns.nextStartTimeRef st -> src_start s = Turns.nextStartTimeRef st).
Proof.
  intros st ev s. turns_event ev; turns_fields st; cbn [Turns.clock]; turns_exec;
    intros H; try (by apply app_singleton_ne in H);
    apply app_inv_head in H; injection H as <-; eexists; (split; [reflexivity |]);
    cbn [src_start]; (split; [lra |]); split; intros ?; first [done | exfalso; lra].
Qed.

Lemma turns_start_after_clock_witness :
  exists now : Q,
    Turns.clock (Turns.Message 7 (chunk 2)) = Some now /\
    now <= 7 + (5 # 100) /\
    (Turns.nextStartTimeRef Turns.connected < now -> 7 + (5 # 100) = now + (5 # 100)) /\
    (now <= Turns.nextStartTimeRef Turns.connected ->
     7 + (5 # 100) = Turns.nextStartTimeRef Turns.connected).
Proof.
  refine (turns_start_after_clock Turns.connected (Turns.Message 7 (chunk 2))
            {| src_id := 0; src_start := 7 + (5 # 100); src_duration := 2; src_rate := 1 |} _).
  reflexivity.
Defined.

(** *** Changing the speed *)



(** *** The gate stays closed *)

Lemma turns_playing_step (st : Turns.State) (ev : Turns.Event) :
  Turns.passive ev -> Turns.isPlayingRef st = true ->
  let st' := Turns.step st ev in
  Turns.isPlayingRef st' = true /\ Turns.sent st' = Turns.sent st /\
  Turns.started st' = Turns.started st.
Proof.
  intros Hev Hp. turns_event ev; cbn in Hev; try done; turns_fields st;
    cbn in Hp; subst; turns_exec; done.
Qed.

(** X9.  Once [isPlayingRef] is set, only the [ended] event of a source
    or the user's interruption can clear it.  Until then no frame and
    no instruction is sent and no source is started, whatever arrives,
    and also across a disconnection and a new [connect]. *)
Theorem turns_gate_survives_reconnect :
  forall (st : Turns.State) (events : list Turns.Event),
    Turns.isPlayingRef st = true ->
    Forall Turns.passive events ->
    let st' := Turns.run st events in
    Turns.isPlayingRef st' = true /\ Turns.sent st' = Turns.sent st /\
    Turns.started st' = Turns.started st.
Proof.
  intros st events. revert st.
  induction events as [|ev events IH]; intros st Hp Hev; [done |].
  inversion Hev as [|? ? Hev1 Hrest]; subst.
  destruct (turns_playing_step st ev Hev1 Hp) as (Hp' & Hs' & Hst').
  destruct (IH (Turns.step st ev) Hp' Hrest) as (? & Hs'' & Hst'').
  change (Turns.run st (ev :: events)) with (Turns.run (Turns.step st ev) events).
  cbv zeta. repeat split; [done | by rewrite Hs'', Hs' | by rewrite Hst'', Hst'].
Qed.

Lemma turns_gate_survives_reconnect_witness :
  let st := Turns.run Turns.connected [Turns.Message 0 (chunk 1)] in
  let st' :=
    Turns.run st
      [Turns.Disconnect; Turns.Connect; Turns.AudioProcess [1 # 2; 1 # 2];
       Turns.Message 9 (chunk 1)] in
  Turns.isPlayingRef st' = true /\ Turns.sent st' = Turns.sent st /\
  Turns.started st' = Turns.started st.
Proof.
  refine (turns_gate_survives_reconnect
            (Turns.run Turns.connected [Turns.Message 0 (chunk 1)])
            [Turns.Disconnect; Turns.Connect; Turns.AudioProcess [1 # 2; 1 # 2];
             Turns.Message 9 (chunk 1)] _ _).
  - vm_compute. reflexivity.
  - repeat constructor.
Defined.

(** *** Leaving the session *)

Definition turns_offline (st : Turns.State) : Prop :=
  Turns.audioContextsRef st = false /\ Turns.processorRef st = false /\
  Turns.sessionRef st = false /\ Turns.connectionState st = DISCONNECTED /\
  Turns.turnState st = USER_SPEAKING /\ Turns.errorMessage st = None.

Lemma turns_offline_step (st : Turns.State) (ev : Turns.Event) :
  Turns.noConnect ev -> turns_offline st ->
  let st' := Turns.step st ev in
  turns_offline st' /\ Turns.sent st' = Turns.sent st /\
  Turns.started st' = Turns.started st.
Proof.
  unfold turns_offline.
  intros Hev (Hc & Hp & Hs & Hcs & Ht & He). turns_event ev; cbn in Hev; try done;
    turns_fields st; cbn in Hc, Hp, Hs, Hcs, Ht, He; subst; turns_exec; done.
Qed.

(** X10.  [disconnect] is final.  Until [connect] is called again, no
    event makes the hook send anything or start a source, and it stays
    [DISCONNECTED] with the turn on the user's side. *)
Theorem turns_disconnect_is_final :
  forall (st : Turns.State) (events : list Turns.Event),
    Forall Turns.noConnect events ->
    let st' := Turns.run (Turns.disconnect st) events in
    Turns.sent st' = Turns.sent st /\
    Turns.started st' = Turns.started st /\
    Turns.connectionState st' = DISCONNECTED /\
    Turns.turnState st' = USER_SPEAKING.
Proof.
  intros st events Hev.
  assert (Hgen : forall st0 : Turns.State, turns_offline st0 ->
            turns_offline (Turns.run st0 events) /\
            Turns.sent (Turns.run st0 events) = Turns.sent st0 /\
            Turns.started (Turns.run st0 events) = Turns.started st0).
  { induction Hev as [|ev events Hev1 Hrest IH]; intros st0 Hst0; [done |].
    destruct (turns_offline_step st0 ev Hev1 Hst0) as (Hoff & Hs' & Hst').
    destruct (IH _ Hoff) as (? & Hs'' & Hst'').
    change (Turns.run st0 (ev :: events)) with (Turns.run (Turns.step st0 ev) events).
    split; [done |]. split; [by rewrite Hs'', Hs' | by rewrite Hst'', Hst']. }
  destruct (Hgen (Turns.disconnect st)) as ((_ & _ & _ & Hcs & Ht & _) & Hs & Hst).
  { by turns_fields st. }
  cbv zeta. rewrite Hs, Hst. split; [by turns_fields st |]. split; [by turns_fields st |]. done.
Qed.

Lemma turns_disconnect_is_final_witness :
  let st := Turns.run Turns.connected [Turns.Message 0 (chunk 1); Turns.Message 0 (chunk 2)] in
  let st' :=
    Turns.run (Turns.disconnect st)
      [Turns.Ended 0 1; Turns.AudioProcess [1 # 2]; Turns.Interrupt; Turns.ChangeSpeed fast;
       Turns.Message 2 (chunk 1)] in
  Turns.sent st' = Turns.sent st /\
  Turns.started st' = Turns.started st /\
  Turns.connectionState st' = DISCONNECTED /\
  Turns.turnState st' = USER_SPEAKING.
Proof.
  refine (turns_disconnect_is_final _
            [Turns.Ended 0 1; Turns.AudioProcess [1 # 2]; Turns.Interrupt;
             Turns.ChangeSpeed fast; Turns.Message 2 (chunk 1)] _).
  repeat constructor.
Defined.

(** *** Errors *)

Lemma turns_error_step (st : Turns.State) (ev : Turns.Event) :
  Turns.errorMessage st = None /\ Turns.connectionState st <> ERROR ->
  Turns.errorMessage (Turns.step st ev) = None /\
  Turns.connectionState (Turns.step st ev) <> ERROR.
Proof.
  intros [He Hc]. turns_event ev; turns_fields st; cbn in He, Hc; subst;
    turns_exec; done.
Qed.

(** X11.  The hook never shows an error.  [onerror] sets the message and
    then calls [disconnect], which clears it, so an error leaves the
    hook exactly as a close does; so does a [connect] that throws.  In
    every reachable state [errorMessage] is null and the connection
    state is not [ERROR]. *)
Theorem turns_error_never_reported :
  (forall st : Turns.State, Turns.step st Turns.Error = Turns.step st Turns.Close) /\
  (forall events : list Turns.Event,
     let st := Turns.run Turns.connected events in
     Turns.errorMessage st = None /\ Turns.connectionState st <> ERROR).
Proof.
  split.
  - intros st. by turns_fields st.
  - intros events. induction events as [|ev events IH] using rev_ind; [done |].
    cbv zeta. rewrite turns_run_snoc. by apply turns_error_step.
Qed.

(** * The walkie-talkie revisions: what the interface shows *)

Definition control_ui_inv (st : Control.State) : Prop :=
  (Control.isMuted st = true <-> Control.streamRef st = Some false) /\
  (Control.activeSourcesRef st <> ∅ -> Control.isPlaying st = true).

Lemma control_ui_inv_step (st : Control.State) (ev : Control.Event) :
  control_ui_inv st -> control_ui_inv (Control.step st ev).
Proof.
  unfold control_ui_inv. control_event ev; control_fields st; control_norm;
    intros (Hm & Hp); control_exec';
    (split; [intuition congruence | try done; set_solver]).
Qed.

Lemma control_ui_inv_run (events : list Control.Event) :
  control_ui_inv (Control.run Control.connected events).
Proof.
  induction events as [|ev events IH] using rev_ind.
  - split; cbn; [intuition congruence | done].
  - rewrite control_run_snoc. by apply control_ui_inv_step.
Qed.

Definition mute_ui_inv (st : Mute.State) : Prop :=
  Mute.isMuted st = true <-> Mute.streamRef st = Some false.

Lemma mute_ui_inv_step (st : Mute.State) (ev : Mute.Event) :
  mute_ui_inv st -> mute_ui_inv (Mute.step st ev).
Proof.
  unfold mute_ui_inv. mute_event ev; mute_fields st; mute_norm;
    intros Hm; mute_exec'; intuition congruence.
Qed.

Lemma mute_ui_inv_run (events : list Mute.Event) :
  mute_ui_inv (Mute.run Mute.connected events).
Proof.
  induction events as [|ev events IH] using rev_ind.
  - unfold mute_ui_inv. cbn. intuition congruence.
  - rewrite mute_run_snoc. by apply mute_ui_inv_step.
Qed.

(** X12.  What the hook reports to the interface agrees with its refs in
    every state the connected hook reaches: [isMuted] is true exactly
    when the microphone track is there and disabled (both revisions),
    and [isPlaying] is true whenever a source is in the playback set. *)
Theorem indicators_agree_with_refs :
  (forall events : list Control.Event,
     let st := Control.run Control.connected events in
     (Control.isMuted st = true <-> Control.streamRef st = Some false) /\
     (Control.aiSpeaking st = true -> Control.isPlaying st = true)) /\
  (forall events : list Mute.Event,
     let st := Mute.run Mute.connected events in
     Mute.isMuted st = true <-> Mute.streamRef st = Some false).
Proof.
  split.
  - intros events st. destruct (control_ui_inv_run events) as [Hm Hp]. split; [done |].
    unfold Control.aiSpeaking. intros Hai%negb_true_iff%size_is_0_false. by apply Hp.
  - intros events. apply mute_ui_inv_run.
Qed.

(** X13.  With the tutor silent, pressing the button twice brings the hook
    back to the very state it was in: the second press undoes the first
    on the track and on [isMuted], and nothing else has moved. *)
Theorem idle_toggle_twice_restores :
  forall (events : list Control.Event) (now now' : Q),
    let st := Control.run Control.connected events in
    Control.aiSpeaking st = false -> Control.isPlaying st = false ->
    Control.toggleMute now' (Control.toggleMute now st) = st.
Proof.
  intros events now now' st. destruct (control_ui_inv_run events) as [Hm _].
  fold st in Hm. clearbody st. revert Hm. unfold Control.aiSpeaking.
  control_fields st. control_norm.
  intros Hm Hai%negb_false_iff Hp. subst.
  control_exec; try congruence; f_equal;
    match goal with |- _ = ?b => destruct b; intuition congruence end.
Qed.

Lemma idle_toggle_twice_restores_witness :
  let st := Control.run Control.connected [Control.Message 0 (chunk 1); Control.ToggleMute 1] in
  Control.toggleMute 3 (Control.toggleMute 2 st) = st.
Proof.
  refine (idle_toggle_twice_restores
            [Control.Message 0 (chunk 1); Control.ToggleMute 1] 2 3 _ _);
    vm_compute; reflexivity.
Defined.

(** X14.  A mute set by hand does not outlast the tutor's turn.  With the
    tutor silent and the microphone open, the button closes the
    microphone; the next message that completes a turn opens it again. *)
Theorem manual_mute_lost_at_turn_complete :
  (forall (st : Control.State) (now now' : Q) (message : LiveServerMessage),
     Control.aiSpeaking st = false -> Control.isPlaying st = false ->
     Control.streamRef st = Some true ->
     turnComplete message = true -> inlineData message = None ->
     let st1 := Control.toggleMute now st in
     Control.micEnabled st1 = false /\ Control.isMuted st1 = true /\
     Control.micEnabled (Control.onmessage now' message st1) = true /\
     Control.isMuted (Control.onmessage now' message st1) = false) /\
  (forall (st : Mute.State) (now now' : Q) (message : LiveServerMessage),
     Mute.aiSpeaking st = false ->
     Mute.streamRef st = Some true ->
     turnComplete message = true -> inlineData message = None ->
     let st1 := Mute.toggleMute now st in
     Mute.micEnabled st1 = false /\ Mute.isMuted st1 = true /\
     Mute.micEnabled (Mute.onmessage now' message st1) = true /\
     Mute.isMuted (Mute.onmessage now' message st1) = false).
Proof.
  split.
  - intros st now now' [tc int out inp audio]. unfold Control.aiSpeaking, Control.micEnabled.
    control_fields st. cbn [turnComplete inlineData]. control_norm.
    intros Hai%negb_false_iff Hp Hs -> ->. subst.
    control_exec'; try congruence; try done; set_solver.
  - intros st now now' [tc int out inp audio]. unfold Mute.aiSpeaking, Mute.micEnabled.
    mute_fields st. cbn [turnComplete inlineData]. mute_norm.
    intros Hai%negb_false_iff Hs -> ->. subst.
    mute_exec'; try congruence; try done; set_solver.
Qed.

Lemma manual_mute_lost_at_turn_complete_witness :
  Control.micEnabled
    (Control.onmessage 2 completion (Control.toggleMute 1 Control.connected)) = true /\
  Mute.micEnabled (Mute.onmessage 2 completion (Mute.toggleMute 1 Mute.connected)) = true.
Proof.
  split.
  - refine (proj1 (proj2 (proj2
              (proj1 manual_mute_lost_at_turn_complete Control.connected 1 2 completion
                 _ _ _ _ _)))); reflexivity.
  - refine (proj1 (proj2 (proj2
              (proj2 manual_mute_lost_at_turn_complete Mute.connected 1 2 completion
                 _ _ _ _)))); reflexivity.
Defined.

(** X15.  A chunk that fails to decode aborts the handler after the
    microphone was closed and playback announced: nothing is started,
    and what the same message asks for after the audio block, an
    interruption or the re-opening at [turnComplete], is not done. *)
Theorem undecodable_chunk_aborts_handler :
  forall (st : Control.State) (now : Q) (message : LiveServerMessage),
    Control.outputReady st -> Control.ignoringNextTurnRef st = false ->
    Control.isMuted_captured st = false ->
    inlineData message = Some Undecodable ->
    let st' := Control.onmessage now message st in
    Control.started st' = Control.started st /\
    Control.stopped st' = Control.stopped st /\
    Control.activeSourcesRef st' = Control.activeSourcesRef st /\
    Control.isPlaying st' = true /\
    Control.processingModelTurnRef st' = true /\
    Control.micEnabled st' = false /\
    Control.nextStartTimeRef st' = Math_max (Control.nextStartTimeRef st) now.
Proof.
  intros st now [tc int out inp audio]. unfold Control.outputReady, Control.micEnabled.
  control_fields st. cbn [inlineData]. control_norm.
  intros [-> ->] -> -> ->. control_exec'; done.
Qed.

Lemma undecodable_chunk_aborts_handler_witness :
  let message :=
    {| turnComplete := true; interrupted := true; outputTranscription := "";
       inputTranscription := ""; inlineData := Some Undecodable |} in
  let st := Control.run Control.connected [Control.Message 0 (chunk 5)] in
  let st' := Control.onmessage 1 message st in
  Control.started st' = Control.started st /\
  Control.stopped st' = Control.stopped st /\
  Control.activeSourcesRef st' = Control.activeSourcesRef st /\
  Control.isPlaying st' = true /\
  Control.processingModelTurnRef st' = true /\
  Control.micEnabled st' = false /\
  Control.nextStartTimeRef st' = Math_max (Control.nextStartTimeRef st) 1.
Proof.
  refine (undecodable_chunk_aborts_handler
            (Control.run Control.connected [Control.Message 0 (chunk 5)]) 1
            {| turnComplete := true; interrupted := true; outputTranscription := "";
               inputTranscription := ""; inlineData := Some Undecodable |} _ _ _ _).
  - split; vm_compute; reflexivity.
  - vm_compute. reflexivity.
  - vm_compute. reflexivity.
  - reflexivity.
Defined.

(** *** After the session *)

Definition control_torn_down (st : Control.State) : Prop :=
  Control.outputAudioContextRef st = false /\
  Control.activeSourcesRef st = ∅ /\
  (forall s : Source, s ∈ Control.started st ->
     src_id s ∈ Control.stopped st ∪ Control.ended st).

Lemma control_torn_down_step (st : Control.State) (ev : Control.Event) :
  Control.sameSession ev -> control_torn_down st ->
  control_torn_down (Control.step st ev) /\
  Control.started (Control.step st ev) = Control.started st.
Proof.
  unfold control_torn_down. control_event ev; cbn [Control.sameSession]; try done;
    intros _; control_fields st; control_norm;
    intros (-> & -> & Hgraph); control_exec';
    (split; [| done]); (split; [done |]); (split; [set_solver |]);
    intros s Hs; specialize (Hgraph s Hs); set_solver.
Qed.

Lemma control_torn_down_run (events : list Control.Event) :
  forall st : Control.State,
    Forall Control.sameSession events -> control_torn_down st ->
    control_torn_down (Control.run st events) /\
    Control.started (Control.run st events) = Control.started st.
Proof.
  induction events as [|ev events IH]; intros st Hev Hst; [done |].
  inversion Hev as [|? ? Hev1 Hrest]; subst.
  destruct (control_torn_down_step st ev Hev1 Hst) as [Hst' Hs'].
  destruct (IH (Control.step st ev) Hrest Hst') as [Hst'' Hs''].
  change (Control.run st (ev :: events)) with (Control.run (Control.step st ev) events).
  split; [done | by rewrite Hs'', Hs'].
Qed.

Lemma control_cleanup_torn_down (st : Control.State) :
  control_inv st ->
  control_torn_down (Control.cleanup st) /\
  Control.started (Control.cleanup st) = Control.started st.
Proof.
  unfold control_inv, control_torn_down. control_fields st. control_norm.
  intros (_ & Hgraph). control_exec. repeat split; try done.
  intros s Hs. specialize (Hgraph s Hs). set_solver.
Qed.

(** X16.  Once the session is left, nothing can be heard any more and no
    source is started, whatever events still arrive before a new
    [connect]: every source the hook ever started has been stopped or
    has ended. *)
Theorem disconnect_silences_for_good :
  forall before after : list Control.Event,
    Forall Control.sameSession after ->
    let st := Control.run Control.connected before in
    let st' := Control.run (Control.cleanup st) after in
    Control.started st' = Control.started st /\
    audible (Control.started st') (Control.stopped st') (Control.ended st') = [] /\
    Control.aiSpeaking st' = false.
Proof.
  intros before after Hafter st st'.
  destruct (control_cleanup_torn_down st (control_reachable before)) as [Hdown Hs].
  destruct (control_torn_down_run after _ Hafter Hdown) as [(_ & Hact & Hgraph) Hs'].
  fold st' in Hact, Hgraph, Hs'. split; [by rewrite Hs', Hs |]. split.
  - by apply audible_nil.
  - unfold Control.aiSpeaking. by rewrite Hact.
Qed.

Lemma disconnect_silences_for_good_witness :
  let st :=
    Control.run Control.connected [Control.Message 0 (chunk 5); Control.Close; Control.Connect] in
  let st' :=
    Control.run (Control.cleanup st)
      [Control.Message 1 (chunk 1); Control.Ended 0; Control.ToggleMute 2] in
  Control.started st' = Control.started st /\
  audible (Control.started st') (Control.stopped st') (Control.ended st') = [] /\
  Control.aiSpeaking st' = false.
Proof.
  refine (disconnect_silences_for_good
            [Control.Message 0 (chunk 5); Control.Close; Control.Connect]
            [Control.Message 1 (chunk 1); Control.Ended 0; Control.ToggleMute 2] _).
  repeat constructor.
Defined.

(** * The transcript of the application *)

Lemma string_app_assoc (a b c : string) : (a +:+ b) +:+ c = a +:+ b +:+ c.
Proof.
  induction a as [|x a IH]; [done |].
  change (String x ((a +:+ b) +:+ c) = String x (a +:+ b +:+ c)). by rewrite IH.
Qed.

Lemma string_app_nil_r (a : string) : a +:+ "" = a.
Proof.
  induction a as [|x a IH]; [done |].
  change (String x (a +:+ "") = String x a). by rewrite IH.
Qed.

Lemma truthy_false (s : string) : truthy s = false <-> s = "".
Proof. by destruct s. Qed.

Lemma truthy_app_r (a b : string) : truthy b = true -> truthy (a +:+ b) = true.
Proof. by destruct a, b. Qed.

Lemma userWords_snoc (turns : list App.Turn) (t : App.Turn) :
  App.userWords (turns ++ [t]) = App.userWords turns +:+ App.user t.
Proof.
  induction turns as [|t' turns IH]; cbn.
  - by rewrite string_app_nil_r.
  - unfold App.userWords in IH. by rewrite IH, string_app_assoc.
Qed.

Lemma modelWords_snoc (turns : list App.Turn) (t : App.Turn) :
  App.modelWords (turns ++ [t]) = App.modelWords turns +:+ App.model t.
Proof.
  induction turns as [|t' turns IH]; cbn.
  - by rewrite string_app_nil_r.
  - unfold App.modelWords in IH. by rewrite IH, string_app_assoc.
Qed.

Lemma transcript_update_words (prev : list App.Turn) (userText modelText : string) :
  App.oneSided (userText, modelText) ->
  let next := App.handleTranscriptionUpdate prev userText modelText in
  App.userWords next = App.userWords prev +:+ userText /\
  App.modelWords next = App.modelWords prev +:+ modelText.
Proof.
  unfold App.oneSided, App.handleTranscriptionUpdate. cbn [fst snd]. intros Hside.
  destruct (truthy userText) eqn:Hu.
  - assert (modelText = "") as -> by (destruct Hside as [-> | ->]; done).
    destruct (last prev) as [l|] eqn:Hlast.
    + apply last_Some in Hlast as [prev' ->]. rewrite removelast_last.
      destruct (negb (truthy (App.model l)) && truthy (App.user l)) eqn:Hcond.
      * rewrite !userWords_snoc, !modelWords_snoc. cbn.
        by rewrite !string_app_assoc, !string_app_nil_r.
      * rewrite !userWords_snoc, !modelWords_snoc. cbn.
        by rewrite !string_app_nil_r.
    + rewrite !userWords_snoc, !modelWords_snoc. cbn. by rewrite !string_app_nil_r.
  - apply truthy_false in Hu as ->. rewrite string_app_nil_r.
    destruct (truthy modelText) eqn:Hm.
    + destruct (last prev) as [l|] eqn:Hlast.
      * apply last_Some in Hlast as [prev' ->]. rewrite removelast_last.
        rewrite !userWords_snoc, !modelWords_snoc. cbn.
        by rewrite !string_app_assoc.
      * rewrite !userWords_snoc, !modelWords_snoc. cbn. by rewrite !string_app_nil_r.
    + apply truthy_false in Hm as ->. by rewrite string_app_nil_r.
Qed.

Lemma transcript_words_from (calls : list (string * string)) :
  forall prev : list App.Turn,
    Forall App.oneSided calls ->
    let next :=
      fold_left (fun prev c => App.handleTranscriptionUpdate prev (fst c) (snd c)) calls prev in
    App.userWords next = App.userWords prev +:+ String.concat "" (map fst calls) /\
    App.modelWords next = App.modelWords prev +:+ String.concat "" (map snd calls).
Proof.
  assert (Hconcat : forall (x : string) (l : list string),
             String.concat "" (x :: l) = x +:+ String.concat "" l).
  { intros x [|y l]; cbn; [by rewrite string_app_nil_r | done]. }
  induction calls as [|[u m] calls IH]; intros prev Hcalls.
  - cbn. by rewrite !string_app_nil_r.
  - inversion Hcalls as [|? ? Hc Hrest]; subst.
    destruct (transcript_update_words prev u m Hc) as [Hu Hm].
    destruct (IH (App.handleTranscriptionUpdate prev u m) Hrest) as [Hu' Hm'].
    cbn [fold_left map fst snd]. cbv zeta in Hu', Hm' |- *.
    rewrite Hu', Hm', Hu, Hm, !Hconcat. by rewrite !string_app_assoc.
Qed.

(** X17.  The transcript keeps every word, in order.  When each call of
    [onTranscriptionUpdate] carries the text of one speaker, as the
    calls of the hooks do, the user's fields of the transcript read
    together are the user texts of the calls read together, and
    likewise for the tutor; no text is dropped, repeated or swapped
    when turns are merged. *)
Theorem transcript_keeps_every_word :
  forall calls : list (string * string),
    Forall App.oneSided calls ->
    App.userWords (App.transcript calls) = String.concat "" (map fst calls) /\
    App.modelWords (App.transcript calls) = String.concat "" (map snd calls).
Proof.
  intros calls Hcalls. apply (transcript_words_from calls [] Hcalls).
Qed.

Lemma transcript_keeps_every_word_witness :
  let calls := [("How ", ""); ("are you", ""); ("", "Fine, "); ("", "thanks"); ("Good", "")] in
  App.userWords (App.transcript calls) = String.concat "" (map fst calls) /\
  App.modelWords (App.transcript calls) = String.concat "" (map snd calls).
Proof.
  refine (transcript_keeps_every_word
            [("How ", ""); ("are you", ""); ("", "Fine, "); ("", "thanks"); ("Good", "")] _).
  repeat match goal with
         | |- Forall _ (_ :: _) => constructor; [first [by left | by right] |]
         | |- Forall _ [] => constructor
         end.
Defined.

Definition transcript_turn_shown (t : App.Turn) : Prop :=
  truthy (App.user t) || truthy (App.model t) = true.

Lemma transcript_update_shown (prev : list App.Turn) (userText modelText : string) :
  Forall transcript_turn_shown prev ->
  Forall transcript_turn_shown (App.handleTranscriptionUpdate prev userText modelText).
Proof.
  unfold App.handleTranscriptionUpdate, transcript_turn_shown. intros Hprev.
  destruct (truthy userText) eqn:Hu; [| destruct (truthy modelText) eqn:Hm; [| done]];
    destruct (last prev) as [l|] eqn:Hlast;
    try (apply last_Some in Hlast as [prev' ->]; rewrite removelast_last;
         pose proof Hprev as Hall; apply Forall_app in Hprev as [Hprev' Hl%Forall_inv]);
    try destruct (negb (truthy (App.model l)) && truthy (App.user l));
    apply Forall_app; (split; [done |]); apply Forall_singleton; cbn;
    rewrite ?Hu, ?Hm, ?(truthy_app_r _ _ Hu), ?(truthy_app_r _ _ Hm), ?orb_true_r; done.
Qed.

(** X18.  The transcript never holds a blank turn: whatever calls are made,
    also calls with both texts empty, every turn has text of the user
    or of the tutor. *)
Theorem transcript_has_no_blank_turn :
  forall (calls : list (string * string)) (t : App.Turn),
    t ∈ App.transcript calls ->
    truthy (App.user t) || truthy (App.model t) = true.
Proof.
  intros calls t. unfold App.transcript.
  assert (Hgen : forall prev : list App.Turn,
            Forall transcript_turn_shown prev ->
            Forall transcript_turn_shown
              (fold_left (fun prev c => App.handleTranscriptionUpdate prev (fst c) (snd c))
                 calls prev)).
  { induction calls as [|c calls IH]; intros prev Hprev; [done |].
    cbn. by apply IH, transcript_update_shown. }
  intros Ht. specialize (Hgen [] ltac:(constructor)).
  rewrite Forall_forall in Hgen. by apply Hgen.
Qed.

Lemma transcript_has_no_blank_turn_witness :
  truthy (App.user {| App.user := "Hi"; App.model := "Hello" |}) ||
  truthy (App.model {| App.user := "Hi"; App.model := "Hello" |}) = true.
Proof.
  refine (transcript_has_no_blank_turn [("", ""); ("Hi", ""); ("", "Hello")]
            {| App.user := "Hi"; App.model := "Hello" |} _).
  vm_compute. apply list_elem_of_here.
Defined.

(** * The loudness of a frame *)

(** X19.  The loudness that [onaudioprocess] publishes as [volume] lies
    between 0 and 1, for every frame with at least one sample. *)
Theorem loudness_in_unit_interval :
  forall inputData : list Q,
    inputData <> [] ->
    0 <= loudness inputData /\ loudness inputData <= 1.
Proof.
  intros inputData _.
  assert (Hrms : 0 <= rms inputData).
  { unfold rms, Math_sqrt, Qle. cbn [Qnum Qden]. rewrite Z.mul_1_r, Z.mul_0_l.
    apply Z.sqrt_nonneg. }
  unfold loudness, Math_min.
  destruct (Qle_bool (rms inputData * 5) 1) eqn:Hle.
  - apply Qle_bool_iff in Hle. split; [| done]. nra.
  - split; [done | apply Qle_refl].
Qed.

Lemma loudness_in_unit_interval_witness :
  0 <= loudness [1 # 2; 1 # 2] /\ loudness [1 # 2; 1 # 2] <= 1.
Proof.
  refine (loudness_in_unit_interval [1 # 2; 1 # 2] _). discriminate.
Defined.
